(** * Course-1: the signal policy ([agent/agent.py]) and the result reducer
    ([runner.py]), embedded in Rocq.

    Definitions come first:

    - [Py]: the fragment of the Python runtime the two files rely on:
      exceptions and the error monad, binary64 floats (the kernel's
      primitive floats), [int()], true division, [format(x, '.Nf')],
      slices, indexing and list comprehensions.
    - [Agent]: the state of the strategy, the per-bar callback [next] with
      its loop over the data feeds, and a run of the engine over a sequence
      of bars.
    - [Runner]: [safe_get], the two guarded ratios of the result record,
      the record itself, [run_backtest] and the exit status of the script.
    - [Script]: the parsing of the symbol file and the document the
      script ends with.
    - [AgentTerms]: vocabulary for the orders and failures of the policy.
    - [Scenario]: sample inputs.

    The properties follow, in [PySpec], [RunnerSpec] and [AgentSpec], and
    further ones in [AgentMore] and [RunnerMore].

    The classifier, the broker and the backtesting engine are external
    collaborators; they enter as section variables. *)

From Stdlib Require Import ZArith String Ascii List Floats DecimalString Lia.
From stdpp Require Import base option list gmap.
Import ListNotations.

Set Warnings "-inexact-float,-register-all".
Local Open Scope Z_scope.

(* ===================================================================== *)
(** ** The Python runtime fragment *)
(* ===================================================================== *)

Module Py.

(** Exception classes: those the modelled code raises or names, and any
    other by its name. Only subclasses of [Exception] occur: that is what
    both [except Exception] handlers of the runner catch. *)
Inductive exn_class :=
| ZeroDivisionError
| TypeError
| ValueError
| OverflowError
| UnboundLocalError
| IndexError
| AttributeError
| KeyError
| OtherException (name : string).

(** An exception instance: its class and [str(e)]. *)
Record exn := Exn { exn_cls : exn_class; exn_str : string }.

(** [str(e)] *)
Definition str (e : exn) : string := exn_str e.

Definition exn_class_eqb (a b : exn_class) : bool :=
  match a, b with
  | ZeroDivisionError, ZeroDivisionError | TypeError, TypeError
  | ValueError, ValueError | OverflowError, OverflowError
  | UnboundLocalError, UnboundLocalError | IndexError, IndexError
  | AttributeError, AttributeError | KeyError, KeyError => true
  | OtherException n, OtherException m => String.eqb n m
  | _, _ => false
  end.

(** The outcome of evaluating an expression: a value, or a raised
    exception. *)
Inductive result (A : Type) :=
| Ok (a : A)
| Raise (e : exn).
Arguments Ok {A} a.
Arguments Raise {A} e.

Definition bind {A B} (r : result A) (k : A -> result B) : result B :=
  match r with
  | Ok a => k a
  | Raise e => Raise e
  end.

Declare Scope py_scope.
Delimit Scope py_scope with py.
Notation "x <- c ;; k" := (bind c (fun x => k))
  (at level 100, c at next level, right associativity) : py_scope.
Local Open Scope py_scope.

Definition raises {A} (r : result A) : bool :=
  match r with Ok _ => false | Raise _ => true end.

(** [try: body / except (c1, .., cn): handler] *)
Definition try_except {A} (body : result A) (caught : list exn_class)
    (handler : result A) : result A :=
  match body with
  | Ok a => Ok a
  | Raise e =>
      if existsb (exn_class_eqb (exn_cls e)) caught then handler
      else Raise e
  end.

(** Messages of the builtin exceptions, in CPython 3.11's wording. The
    wording depends on the interpreter; no statement below depends on it. *)
Definition float_division_by_zero : exn :=
  Exn ZeroDivisionError "float division by zero".
Definition division_by_zero : exn :=
  Exn ZeroDivisionError "division by zero".
Definition nan_to_integer : exn :=
  Exn ValueError "cannot convert float NaN to integer".
Definition infinity_to_integer : exn :=
  Exn OverflowError "cannot convert float infinity to integer".
Definition index_out_of_range : exn :=
  Exn IndexError "list index out of range".
Definition unbound_local (name : string) : exn :=
  Exn UnboundLocalError
      ("cannot access local variable '" ++ name ++
       "' where it is not associated with a value").
Definition int_too_large : exn :=
  Exn OverflowError "int too large to convert to float".
Definition division_result_too_large : exn :=
  Exn OverflowError "integer division result too large for a float".

(** *** Floats *)

(** A Python [float] is an IEEE 754 binary64 number: Rocq's primitive
    [float], with the same rounding. *)

(** The binary64 number nearest to the integer [n], ties to even: [n]
    itself below 2^53, an infinity beyond the range of the floats. *)
Definition float_of_Z (n : Z) : float :=
  SF2Prim (binary_normalize prec emax n 0 false).

(** An [int] operand that meets a float operand is converted first:
    rounded to the nearest binary64 number, and refused when that is beyond
    the range of the floats. *)
Definition float_of_int (n : Z) : result float :=
  let x := float_of_Z n in
  if PrimFloat.is_infinity x then Raise int_too_large else Ok x.

(** [a / b] on floats: Python raises where IEEE 754 would give an infinity
    or a NaN. *)
Definition float_truediv (a b : float) : result float :=
  if PrimFloat.eqb b 0%float then Raise float_division_by_zero
  else Ok (a / b)%float.

(** An integer as an exact binary number, whatever its size. *)
Definition spec_of_Z (n : Z) : spec_float :=
  match n with
  | Z0 => S754_zero false
  | Zpos p => S754_finite false p 0
  | Zneg p => S754_finite true p 0
  end.

(** [x / y] on two [int]s: the exact quotient, rounded once to the nearest
    binary64 number (ties to even, a zero result signed as the quotient);
    the operands are not converted, so they may lie beyond the floats.
    Python raises where the rounded quotient does. *)
Definition int_truediv (x y : Z) : result float :=
  if y =? 0 then Raise division_by_zero
  else
    match SFdiv prec emax (spec_of_Z x) (spec_of_Z y) with
    | S754_infinity _ => Raise division_result_too_large
    | q => Ok (SF2Prim q)
    end.

(** [int(x)] on a float: truncation towards zero. *)
Definition int_of_float (x : float) : result Z :=
  match Prim2SF x with
  | S754_nan => Raise nan_to_integer
  | S754_infinity _ => Raise infinity_to_integer
  | S754_zero _ => Ok 0
  | S754_finite s m e =>
      let a := if 0 <=? e then Z.pos m * 2 ^ e else Z.pos m / 2 ^ (- e) in
      Ok (if s then - a else a)
  end.

(** *** [format(x, '.Nf')] *)

(** The integer nearest to [num / den] ([den > 0]), ties to even: the
    rounding of CPython's float formatting, which works on the exact binary
    value. *)
Definition round_half_even (num den : Z) : Z :=
  let q := num / den in
  let r := num mod den in
  match 2 * r ?= den with
  | Lt => q
  | Gt => q + 1
  | Eq => if Z.even q then q else q + 1
  end.

(** Decimal digits of a natural number, without leading zeros ("0" for 0). *)
Definition decimal (n : Z) : string :=
  NilZero.string_of_uint (N.to_uint (Z.to_N n)).

Fixpoint zeros (n : nat) : string :=
  match n with
  | O => EmptyString
  | S k => String "0" (zeros k)
  end.

Definition digit (d : Z) : ascii := ascii_of_N (48 + Z.to_N d).

(** The last [p] decimal digits of [n], leading zeros included. *)
Fixpoint padded (p : nat) (n : Z) : string :=
  match p with
  | O => EmptyString
  | S q => padded q (n / 10) ++ String (digit (n mod 10)) EmptyString
  end.

(** The digits of [|x| * 10^p] rounded to an integer, for a finite
    [x = m * 2^e]. *)
Definition scaled (p : nat) (m : positive) (e : Z) : Z :=
  if 0 <=? e then Z.pos m * 2 ^ e * 10 ^ Z.of_nat p
  else round_half_even (Z.pos m * 10 ^ Z.of_nat p) (2 ^ (- e)).

Definition sign_str (s : bool) : string := if s then "-" else "".

(** [f'{x:.pf}'] for [p > 0]. *)
Definition format_f (p : nat) (x : float) : string :=
  match Prim2SF x with
  | S754_nan => "nan"
  | S754_infinity s => sign_str s ++ "inf"
  | S754_zero s => sign_str s ++ "0." ++ zeros p
  | S754_finite s m e =>
      let n := scaled p m e in
      sign_str s ++ decimal (n / 10 ^ Z.of_nat p) ++ "." ++
      padded p (n mod 10 ^ Z.of_nat p)
  end.

(** [' '.join(xs)] *)
Fixpoint join (sep : string) (xs : list string) : string :=
  match xs with
  | [] => ""
  | [x] => x
  | x :: rest => x ++ sep ++ join sep rest
  end.

(** *** Lists *)

(** [l[start:]]: a negative [start] counts from the end, and the bounds are
    clipped. [l[-0:]] is [l[0:]], the whole list. *)
Definition slice_from {A} (l : list A) (start : Z) : list A :=
  let len := Z.of_nat (length l) in
  let lo := if start <? 0 then Z.max 0 (start + len) else Z.min start len in
  drop (Z.to_nat lo) l.

(** [l[i]]: a negative [i] counts from the end; out of range raises. *)
Definition getitem {A} (l : list A) (i : Z) : result A :=
  let j := if i <? 0 then i + Z.of_nat (length l) else i in
  if j <? 0 then Raise index_out_of_range
  else match l !! Z.to_nat j with
       | Some x => Ok x
       | None => Raise index_out_of_range
       end.

(** [[f(x) for x in l]]: elements are evaluated in order, the first
    exception aborts the comprehension. *)
Fixpoint comprehension {A B} (f : A -> result B) (l : list A)
  : result (list B) :=
  match l with
  | [] => Ok []
  | x :: rest =>
      y <- f x ;;
      ys <- comprehension f rest ;;
      Ok (y :: ys)
  end.

(** [range(n)] *)
Definition range (n : nat) : list nat := seq 0 n.

End Py.

(* ===================================================================== *)
(** ** agent/agent.py: the signal policy *)
(* ===================================================================== *)

Module Agent.
Import Py.
Local Open Scope py_scope.

(** [Agent.params] *)
Record Params := {
  model_name : string;
  seq_length : Z;
  threshold : float;
  position_size : float
}.

(** The defaults of the class. *)
Definition default_params : Params := {|
  model_name := "distilbert-base-uncased";
  seq_length := 10;
  threshold := 0.6;
  position_size := 0.15
|}.

(** A data feed [d] as the strategy sees it between bars: its name and the
    lookback buffer the strategy attached to it. *)
Record data := Data {
  _name : string;
  lookback : list float
}.

(** What the engine shows the strategy during one call of [next]: the
    broker's cash, and for the feed of index [i] the close of the current
    bar ([d.close[0]]) and the size of the open position
    ([self.getposition(d).size]). Orders are executed by the engine after
    the callback returns, so these do not change during the call. *)
Record bar := Bar {
  getcash : float;
  close0 : nat -> float;
  getposition : nat -> Z
}.

(** The observable effects of [next], in program order. [Infer] is the call
    of the tokenizer and the model on a feature text; [Close] and [Buy] are
    the order intents [self.close(data=d)] and [self.buy(data=d, size=..)]
    on the feed of that index; [Print] is a line on standard output. *)
Inductive event :=
| Infer (i : nat) (feature_text : string)
| Close (i : nat)
| Buy (i : nat) (size : Z)
| Print (line : string).

(** The feed an event is about. *)
Definition feed_of (ev : event) : option nat :=
  match ev with
  | Infer i _ | Close i | Buy i _ => Some i
  | Print _ => None
  end.

Definition is_intent (ev : event) : bool :=
  match ev with
  | Close _ | Buy _ _ => true
  | Infer _ _ | Print _ => false
  end.

Definition about (i : nat) (ev : event) : bool :=
  match feed_of ev with
  | Some j => Nat.eqb i j
  | None => false
  end.

(** The order intents among [evs]. *)
Definition intents (evs : list event) : list event :=
  List.filter is_intent evs.

(** The events among [evs] that concern feed [i]. *)
Definition events_of (i : nat) (evs : list event) : list event :=
  List.filter (about i) evs.

(** The state of the strategy object between calls. *)
Record agent := {
  datas : list data;
  model_signals : gmap nat Z
}.

(** The result of running a piece of the strategy: the state it leaves, the
    events it emitted, and the exception that ended it, if any. The
    mutations and effects made before an exception stay. *)
Record out (S : Type) := Out {
  final : S;
  emitted : list event;
  raised : option exn
}.
Arguments Out {S} final emitted raised.
Arguments final {S} o.
Arguments emitted {S} o.
Arguments raised {S} o.

(** *** Feature text (lines 40-45) *)

(** One element of the list comprehension of line 41. The integer [0] of
    the [else] arm is rendered by [:.4f] as the float [0.0] is. *)
Definition simple_return (recent : list float) (i : nat) : result float :=
  if 0 <? Z.of_nat i then
    a <- getitem recent (Z.of_nat i) ;;
    b <- getitem recent (Z.of_nat i - 1) ;;
    q <- float_truediv a b ;;
    Ok (q - 1)%float
  else Ok 0%float.

Definition render (returns : list float) : string :=
  ("Price movements: " ++ join " " (List.map (format_f 4) returns))%string.

Section Policy.

(** The tokenizer and the model (lines 48-55): from the feature text to
    the predicted class ([argmax] of the three probabilities) and its
    probability. The call is made outside any handler: what it raises ends
    [next]. *)
Variable classify : string -> result (Z * float).
Variable params : Params.

Definition recent_closes (lb : list float) : list float :=
  slice_from lb (- seq_length params).

Definition returns_of (recent : list float) : result (list float) :=
  comprehension (simple_return recent) (range (length recent)).

Definition feature_text (lb : list float) : result string :=
  returns <- returns_of (recent_closes lb) ;;
  Ok (render returns).

(** *** The decision (lines 61-76) *)

(** The local variables of [next] that outlive one iteration of its loop:
    [size] ([None] while unbound), and the signal table of [self]. *)
Record frame := Frame {
  size_local : option Z;
  signals : gmap nat Z
}.

Definition notice (label : string) (d : data) (price conf : float) : string :=
  (label ++ " " ++ _name d ++ " at " ++ format_f 2 price ++
   ", confidence: " ++ format_f 2 conf)%string.

(** [int(self.broker.getcash() * self.params.position_size / d.close[0])] *)
Definition share_count (b : bar) (i : nat) : result Z :=
  q <- float_truediv (getcash b * position_size params)%float (close0 b i) ;;
  int_of_float q.

Definition decide (b : bar) (i : nat) (d : data) (pred : Z) (conf : float)
    (sz : option Z) : out (option Z) :=
  if (getposition b i =? 0) && (pred =? 2) &&
     (threshold params <? conf)%float then
    match share_count b i with
    | Raise e => Out sz [] (Some e)
    | Ok s =>
        if 0 <? s then
          Out (Some s)
              [Close i; Print (notice "BUY" d (close0 b i) conf)] None
        else Out (Some s) [] None
    end
  else if negb (getposition b i =? 0) && (pred =? 0) &&
          (threshold params <? conf)%float then
    match sz with
    | None => Out sz [] (Some (unbound_local "size"))
    | Some s =>
        Out sz [Buy i s; Print (notice "SELL" d (close0 b i) conf)] None
    end
  else Out sz [] None.

(** *** One iteration of the loop of [next] (lines 35-76) *)

(** [d.lookback.append(d.close[0])] *)
Definition appended (b : bar) (i : nat) (d : data) : data :=
  Data (_name d) (lookback d ++ [close0 b i]).

Definition body (b : bar) (i : nat) (d : data) (fr : frame)
  : out (data * frame) :=
  let d' := appended b i d in
  if Z.of_nat (length (lookback d')) <? seq_length params then
    Out (d', fr) [] None
  else
    match feature_text (lookback d') with
    | Raise e => Out (d', fr) [] (Some e)
    | Ok text =>
        match classify text with
        | Raise e => Out (d', fr) [Infer i text] (Some e)
        | Ok (pred, conf) =>
            let signals' := <[i := pred]> (signals fr) in
            let o := decide b i d' pred conf (size_local fr) in
            Out (d', Frame (final o) signals')
                (Infer i text :: emitted o) (raised o)
        end
    end.

(** [for i, d in enumerate(self.datas)], from index [i] on. *)
Fixpoint loop (b : bar) (i : nat) (ds : list data) (fr : frame)
  : out (list data * frame) :=
  match ds with
  | [] => Out ([], fr) [] None
  | d :: rest =>
      let o := body b i d fr in
      match raised o with
      | Some e =>
          Out (fst (final o) :: rest, snd (final o)) (emitted o) (Some e)
      | None =>
          let o' := loop b (S i) rest (snd (final o)) in
          Out (fst (final o) :: fst (final o'), snd (final o'))
              (emitted o ++ emitted o') (raised o')
      end
  end.

(** [Agent.next]: [size] is a local of the call, unbound when it starts. *)
Definition next (ag : agent) (b : bar) : out agent :=
  let o := loop b 0 (datas ag) (Frame None (model_signals ag)) in
  Out {| datas := fst (final o); model_signals := signals (snd (final o)) |}
      (emitted o) (raised o).

(** The engine calls [next] once per bar; an exception ends the run. The
    events are kept bar by bar. *)
Fixpoint run (ag : agent) (bars : list bar)
  : agent * list (list event) * option exn :=
  match bars with
  | [] => (ag, [], None)
  | b :: rest =>
      let o := next ag b in
      match raised o with
      | Some e => (final o, [emitted o], Some e)
      | None =>
          let '(ag', trace, r) := run (final o) rest in
          (ag', emitted o :: trace, r)
      end
  end.

(** The events of a run, bar by bar. *)
Definition trace (ag : agent) (bars : list bar) : list (list event) :=
  snd (fst (run ag bars)).

End Policy.

(** [Agent.__init__]: an empty buffer per feed, signal 0 per index. *)
Definition init (names : list string) : agent := {|
  datas := List.map (fun n => Data n []) names;
  model_signals :=
    list_to_map (List.map (fun i => (i, 0)) (range (length names)))
|}.

End Agent.

(* ===================================================================== *)
(** ** runner.py: the result reducer and the script *)
(* ===================================================================== *)

Module Runner.
Import Py.
Local Open Scope string_scope.
Local Open Scope Z_scope.
Local Open Scope py_scope.

(** What an analyzer returns: [None], a number, a string, or a mapping from
    names to such values. The mappings are insertion-ordered dicts
    ([AutoOrderedDict]) and are written out in that order, hence the
    association list; keys are unique. *)
Inductive value :=
| VNone
| VBool (b : bool)
| VInt (n : Z)
| VFloat (x : float)
| VStr (s : string)
| VDict (items : list (string * value)).

Definition is_None (v : value) : bool :=
  match v with VNone => true | _ => false end.

(** [isinstance(v, float) and math.isnan(v)] *)
Definition is_nan_float (v : value) : bool :=
  match v with VFloat x => PrimFloat.is_nan x | _ => false end.

(** The entry of a dict under a key, if the key is present. *)
Fixpoint dict_lookup (items : list (string * value)) (k : string)
  : option value :=
  match items with
  | [] => None
  | (k', v) :: rest => if String.eqb k k' then Some v else dict_lookup rest k
  end.

(** [d.get(k)] *)
Definition dict_get (items : list (string * value)) (k : string) : value :=
  default VNone (dict_lookup items k).

(** [type(v).__name__] *)
Definition type_name (v : value) : string :=
  match v with
  | VNone => "NoneType"
  | VBool _ => "bool"
  | VInt _ => "int"
  | VFloat _ => "float"
  | VStr _ => "str"
  | VDict _ => "dict"
  end.

Definition not_supported (op : string) (a b : value) : exn :=
  Exn TypeError
      ("'" ++ op ++ "' not supported between instances of '" ++
       type_name a ++ "' and '" ++ type_name b ++ "'").

Definition unsupported_operands (op : string) (a b : value) : exn :=
  Exn TypeError
      ("unsupported operand type(s) for " ++ op ++ ": '" ++
       type_name a ++ "' and '" ++ type_name b ++ "'").

(** A number as Python's arithmetic sees it: [bool] is a subclass of
    [int]. *)
Inductive number :=
| NInt (n : Z)
| NFloat (x : float).

Definition as_number (v : value) : option number :=
  match v with
  | VBool b => Some (NInt (if b then 1 else 0))
  | VInt n => Some (NInt n)
  | VFloat x => Some (NFloat x)
  | VNone | VStr _ | VDict _ => None
  end.

(** A number as an operand of a float operation. *)
Definition to_float (n : number) : result float :=
  match n with
  | NInt z => float_of_int z
  | NFloat x => Ok x
  end.

(** [v > 0] *)
Definition gt_zero (v : value) : result bool :=
  match as_number v with
  | Some (NInt n) => Ok (0 <? n)
  | Some (NFloat x) => Ok (0 <? x)%float
  | None => Raise (not_supported ">" v (VInt 0))
  end.

(** [v != 0]: values of different kinds are unequal, nothing raises. *)
Definition ne_zero (v : value) : bool :=
  match as_number v with
  | Some (NInt n) => negb (n =? 0)
  | Some (NFloat x) => negb (x =? 0)%float
  | None => true
  end.

(** [a / b]: true division, always a float. Two ints are divided
    exactly; an int that meets a float is converted first, the left operand
    before the right one, and then the floats are divided. *)
Definition truediv (a b : value) : result float :=
  match as_number a, as_number b with
  | Some (NInt x), Some (NInt y) => int_truediv x y
  | Some x, Some y =>
      x' <- to_float x ;;
      y' <- to_float y ;;
      float_truediv x' y'
  | _, _ => Raise (unsupported_operands "/" a b)
  end.

(** The [keys] argument of [safe_get]: one key, or a list of keys. *)
Inductive keyspec :=
| Key (k : string)
| Keys (ks : list string).

(** [if not isinstance(keys, (list, tuple)): keys = [keys]] *)
Definition key_list (keys : keyspec) : list string :=
  match keys with Key k => [k] | Keys ks => ks end.

(** What the simulation hands to the reducer (lines 81-97). *)
Record analyses := {
  initial_value : float;
  final_value : float;
  sharpe_analysis : value;
  drawdown_analysis : value;
  trade_analysis : value;
  returns_analysis : value;
  calmar_analysis : value;
  sqn_analysis : value;
  annual_return_analysis : value
}.

Record parameters_t := {
  symbols : list string;
  start_date : string;
  end_date : string
}.

(** The dict [results_data]. *)
Record results_data_t := {
  parameters : parameters_t;
  results : list (string * value);
  error : option string
}.

Section Reducer.

(** The attribute table of the values that are not dicts: [attr v k] is
    [None] where [v.k] would raise [AttributeError]. *)
Variable attr : value -> string -> option value.

(** [getattr(v, k, None)] *)
Definition getattr (v : value) (k : string) : value :=
  default VNone (attr v k).

(** *** [safe_get] (lines 100-113) *)

(** The [for] loop of [safe_get]: [None] is the early [return default],
    [Some val] the value the loop ends with. *)
Fixpoint descend (val : value) (keys : list string) : option value :=
  match keys with
  | [] => Some val
  | k :: rest =>
      let val' :=
        match val with
        | VDict items => dict_get items k
        | _ => getattr val k
        end in
      if is_None val' then None else descend val' rest
  end.

Definition safe_get (analysis : value) (keys : keyspec) (default : value)
  : result value :=
  if is_None analysis then Ok default
  else
    let keys := key_list keys in
    try_except
      (match descend analysis keys with
       | None => Ok default
       | Some val => if is_nan_float val then Ok default else Ok val
       end)
      [AttributeError; KeyError]
      (Ok default).

(** *** The guarded ratios (lines 139-140 and 144-145) *)

Definition win_rate_pct (trade_analysis : value) : result value :=
  closed <- safe_get trade_analysis (Keys ["total"; "closed"]) VNone ;;
  positive <- gt_zero closed ;;
  if positive : bool then
    won <- safe_get trade_analysis (Keys ["won"; "total"]) (VInt 0) ;;
    closed <- safe_get trade_analysis (Keys ["total"; "closed"]) (VInt 1) ;;
    q <- truediv won closed ;;
    Ok (VFloat (q * 100))%float
  else Ok (VInt 0).

Definition profit_factor (trade_analysis : value) : result value :=
  guard <- safe_get trade_analysis (Keys ["lost"; "pnl5"; "total"]) VNone ;;
  if ne_zero guard then
    won <- safe_get trade_analysis (Keys ["won"; "pnl"; "total"]) (VInt 0) ;;
    lost <- safe_get trade_analysis (Keys ["lost"; "pnl"; "total"]) (VInt 1) ;;
    q <- truediv won lost ;;
    Ok (VFloat (PrimFloat.abs q))
  else Ok VNone.

(** *** The result record (lines 84-86 and 116-152) *)

(** [portfolio_return_pct] *)
Definition portfolio_return_pct (initial final : float) : result value :=
  if negb (initial =? 0)%float then
    q <- float_truediv (final - initial)%float initial ;;
    Ok (VFloat (q * 100))%float
  else Ok (VInt 0).

(** The dict literal of line 116: the entries are evaluated in the order
    written, so the first one that raises ends the evaluation. *)
Definition consolidate (a : analyses) : result (list (string * value)) :=
  let trades := trade_analysis a in
  let drawdown := drawdown_analysis a in
  return_pct <- portfolio_return_pct (initial_value a) (final_value a) ;;
  let pnl := VFloat (final_value a - initial_value a)%float in
  annualized <- safe_get (returns_analysis a) (Key "rannually") VNone ;;
  sharpe <- safe_get (sharpe_analysis a) (Key "sharperatio") VNone ;;
  calmar <- safe_get (calmar_analysis a) (Key "calmar") VNone ;;
  sqn <- safe_get (sqn_analysis a) (Key "sqn") VNone ;;
  dd_pct <- safe_get drawdown (Keys ["max"; "drawdown"]) VNone ;;
  dd_money <- safe_get drawdown (Keys ["max"; "moneydown"]) VNone ;;
  dd_len <- safe_get drawdown (Keys ["max"; "len"]) VNone ;;
  total <- safe_get trades (Keys ["total"; "total"]) (VInt 0) ;;
  open <- safe_get trades (Keys ["total"; "open"]) (VInt 0) ;;
  closed <- safe_get trades (Keys ["total"; "closed"]) (VInt 0) ;;
  won <- safe_get trades (Keys ["won"; "total"]) (VInt 0) ;;
  lost <- safe_get trades (Keys ["lost"; "total"]) (VInt 0) ;;
  win_rate <- win_rate_pct trades ;;
  net <- safe_get trades (Keys ["pnl"; "net"; "total"]) (VInt 0) ;;
  avg_win <- safe_get trades (Keys ["won"; "pnl"; "average"]) (VInt 0) ;;
  avg_loss <- safe_get trades (Keys ["lost"; "pnl"; "average"]) (VInt 0) ;;
  factor <- profit_factor trades ;;
  wins <- safe_get trades (Keys ["streak"; "won"; "longest"]) (VInt 0) ;;
  losses <- safe_get trades (Keys ["streak"; "lost"; "longest"]) (VInt 0) ;;
  duration <- safe_get trades (Keys ["len"; "average"]) VNone ;;
  Ok [ ("initial_value", VFloat (initial_value a));
       ("final_value", VFloat (final_value a));
       ("portfolio_return_pct", return_pct);
       ("portfolio_net_pnl", pnl);
       ("annualized_return_pct", annualized);
       ("sharpe_ratio", sharpe);
       ("calmar_ratio", calmar);
       ("sqn", sqn);
       ("max_drawdown_pct", dd_pct);
       ("max_drawdown_money", dd_money);
       ("max_drawdown_duration_bars", dd_len);
       ("total_trades", total);
       ("trades_open", open);
       ("trades_closed", closed);
       ("win_trades", won);
       ("loss_trades", lost);
       ("win_rate_pct", win_rate);
       ("total_net_pnl", net);
       ("average_win_pnl", avg_win);
       ("average_loss_pnl", avg_loss);
       ("profit_factor", factor);
       ("max_consecutive_wins", wins);
       ("max_consecutive_losses", losses);
       ("average_trade_duration_bars", duration);
       ("annual_returns", annual_return_analysis a) ].

(** *** [run_backtest] (lines 25-181) *)

(** The simulation: configuring the engine, attaching the feeds, running
    the strategy over every bar and fetching the analyses (lines 41-97).
    Any of these steps may raise. *)
Variable simulate :
  list string -> string -> string -> float -> result analyses.

(** The [try] block: the simulation, then the reduction. *)
Definition attempt (syms : list string) (start_ end_ : string)
    (risk_free_rate : float) : result (list (string * value)) :=
  a <- simulate syms start_ end_ risk_free_rate ;;
  consolidate a.

(** A call of [run_backtest]: the dict [results_data] as the call leaves
    it, and how the call ends, by returning that dict or by raising. *)
Record call := Call {
  results_data : results_data_t;
  outcome : result results_data_t
}.

Definition run_backtest (syms : list string) (start_ end_ : string)
    (risk_free_rate : float) : call :=
  let rd := {|
    parameters :=
      {| symbols := syms; start_date := start_; end_date := end_ |};
    results := [];
    error := None
  |} in
  match attempt syms start_ end_ risk_free_rate with
  | Ok res =>
      let rd := {| parameters := parameters rd; results := res;
                   error := error rd |} in
      Call rd (Ok rd)
  | Raise e =>
      let rd := {| parameters := parameters rd; results := results rd;
                   error := Some (str e) |} in
      Call rd (Raise e)
  end.

(** *** The script (lines 198-253) *)

(** Reading [symbols.txt] (lines 199-201), outside any handler. *)
Variable read_symbols : result (list string).

(** Writing the JSON document to [OUTPUT_DIR/output.json] or to standard
    output (lines 222-233). *)
Variable emit : results_data_t -> result unit.

(** The exit status of the process. An exception that no handler catches
    ends the interpreter with status 1. *)
Definition main : Z :=
  match read_symbols with
  | Raise _ => 1
  | Ok syms =>
      let exit_code := 0 in
      match
        final_results <-
          outcome (run_backtest syms "2023-01-01" "2024-12-31" 0.01%float) ;;
        emit final_results
      with
      | Ok _ => exit_code
      | Raise json_e => 1
      end
  end.

(** *** The vocabulary of the lookup contract *)

(** The entry of [v] under the key [k], if [v] has one: a dict by its keys,
    any other value by its attributes. *)
Definition entry (v : value) (k : string) : option value :=
  match v with
  | VDict items => dict_lookup items k
  | _ => attr v k
  end.

(** The value at the end of a key path, when every key of the path names
    an entry. *)
Fixpoint get_path (v : value) (ks : list string) : option value :=
  match ks with
  | [] => Some v
  | k :: rest =>
      match entry v k with
      | Some v' => get_path v' rest
      | None => None
      end
  end.

(** Some key of the path is missing from the value reached before it. *)
Definition key_missing (a : value) (ks : list string) : Prop :=
  exists ks1 k ks2 v,
    ks = (ks1 ++ k :: ks2)%list /\ get_path a ks1 = Some v /\
    entry v k = None.

(** The value reached at some depth of the path (the analysis itself, an
    intermediate value or the final one) is [None]. *)
Definition none_traversed (a : value) (ks : list string) : Prop :=
  exists ks1 ks2, ks = (ks1 ++ ks2)%list /\ get_path a ks1 = Some VNone.

(** The value at the end of the path is a NaN float. *)
Definition nan_final (a : value) (ks : list string) : Prop :=
  exists x, get_path a ks = Some (VFloat x) /\ PrimFloat.is_nan x = true.

(** [r] is at the end of the path and no value on the way to it, [r]
    included, is [None]. *)
Inductive present : value -> list string -> value -> Prop :=
| present_here v :
    v <> VNone -> present v [] v
| present_step v k v' ks r :
    v <> VNone -> entry v k = Some v' -> present v' ks r ->
    present v (k :: ks) r.

(** [bool(v)] *)
Definition truthy (v : value) : bool :=
  match v with
  | VNone => false
  | VBool b => b
  | VInt n => negb (n =? 0)
  | VFloat x => negb (x =? 0)%float
  | VStr s => negb (String.eqb s "")
  | VDict items => match items with [] => false | _ => true end
  end.

End Reducer.

End Runner.

(* ===================================================================== *)
(** ** runner.py: the symbol file and what the script prints *)
(* ===================================================================== *)

Module Script.
Import Py Runner.
Local Open Scope string_scope.
Local Open Scope Z_scope.
Local Open Scope py_scope.

(** *** Reading [symbols.txt] (lines 199-201) *)

Definition newline : ascii := "010"%char.

(** ["\n"] *)
Definition nl : string := String newline EmptyString.

(** [file.readlines()] on the text of the file (newlines already
    normalised by text mode): the text is cut after every newline, which
    stays at the end of its line; a last line without one is kept. *)
Fixpoint readlines (text : string) : list string :=
  match text with
  | EmptyString => []
  | String c rest =>
      if Ascii.eqb c newline then String c EmptyString :: readlines rest
      else match readlines rest with
           | [] => [String c EmptyString]
           | line :: lines => String c line :: lines
           end
  end.

(** [line.replace("\n", "")]: every newline of the line is removed. *)
Fixpoint remove_newlines (line : string) : string :=
  match line with
  | EmptyString => EmptyString
  | String c rest =>
      if Ascii.eqb c newline then remove_newlines rest
      else String c (remove_newlines rest)
  end.

(** [symbols = [line.replace("\n", "") for line in lines]] *)
Definition symbols_of (text : string) : list string :=
  List.map remove_newlines (readlines text).

(** Whether a text ends with a newline. *)
Fixpoint ends_with_newline (text : string) : bool :=
  match text with
  | EmptyString => false
  | String c EmptyString => Ascii.eqb c newline
  | String _ rest => ends_with_newline rest
  end.

(** [c in s] for a character. *)
Fixpoint contains (c : ascii) (s : string) : bool :=
  match s with
  | EmptyString => false
  | String c' rest => Ascii.eqb c c' || contains c rest
  end.

(** *** What the script leaves on its outputs (lines 210-253) *)

(** The document the process ends with: the result record, written to
    [OUTPUT_DIR/output.json] or printed; or the fallback object of line
    249 with its two strings, printed; or, when [symbols.txt] cannot be
    read, the interpreter's traceback and no document. *)
Inductive document :=
| Results (rd : results_data_t)
| Fallback (error partial_results : string)
| Traceback (e : exn).

Section Report.

Variable attr : value -> string -> option value.
Variable simulate :
  list string -> string -> string -> float -> result analyses.
Variable read_symbols : result (list string).
Variable emit : results_data_t -> result unit.

(** [str(final_results)] for a record that [run_backtest] returned. *)
Variable str_of_results : results_data_t -> string.

(** [final_results] is [{}] until [run_backtest] returns, and [str({})]
    is ["{}"]. *)
Definition report : document * Z :=
  match read_symbols with
  | Raise e => (Traceback e, 1)
  | Ok syms =>
      match
        outcome (run_backtest attr simulate syms "2023-01-01" "2024-12-31"
                   0.01%float)
      with
      | Raise json_e =>
          (Fallback ("JSON serialization failed: " ++ str json_e) "{}", 1)
      | Ok final_results =>
          match emit final_results with
          | Ok _ => (Results final_results, 0)
          | Raise json_e =>
              (Fallback ("JSON serialization failed: " ++ str json_e)
                        (str_of_results final_results), 1)
          end
      end
  end.

End Report.

End Script.

(* ===================================================================== *)
(** ** Vocabulary for the orders and failures of the policy *)
(* ===================================================================== *)

Module AgentTerms.
Import Py Agent.
Local Open Scope py_scope.

Section Policy.

Variable classify : string -> result (Z * float).
Variable params : Params.

Local Abbreviation feature_text := (feature_text params).
Local Abbreviation share_count := (share_count params).

(** The three ways a decision ends without raising, and the two ways it
    raises. *)
Inductive decided (b : bar) (i : nat) (d : data) (pred : Z) (conf : float)
    (sz : option Z) : out (option Z) -> Prop :=
| decided_idle :
    decided b i d pred conf sz (Out sz [] None)
| decided_sized s :
    getposition b i = 0 -> pred = 2 ->
    (threshold params <? conf)%float = true ->
    share_count b i = Ok s -> s <= 0 ->
    decided b i d pred conf sz (Out (Some s) [] None)
| decided_close s :
    getposition b i = 0 -> pred = 2 ->
    (threshold params <? conf)%float = true ->
    share_count b i = Ok s -> 0 < s ->
    decided b i d pred conf sz
      (Out (Some s) [Close i; Print (notice "BUY" d (close0 b i) conf)]
           None)
| decided_buy s :
    getposition b i <> 0 -> pred = 0 ->
    (threshold params <? conf)%float = true ->
    sz = Some s ->
    decided b i d pred conf sz
      (Out sz [Buy i s; Print (notice "SELL" d (close0 b i) conf)] None)
| decided_arith e :
    getposition b i = 0 -> pred = 2 ->
    (threshold params <? conf)%float = true ->
    share_count b i = Raise e ->
    decided b i d pred conf sz (Out sz [] (Some e))
| decided_unbound :
    getposition b i <> 0 -> pred = 0 ->
    (threshold params <? conf)%float = true ->
    sz = None ->
    decided b i d pred conf sz (Out sz [] (Some (unbound_local "size"))).

(** [size], when bound, is the share count of an earlier flat feed of this
    bar. *)
Definition size_from_earlier (b : bar) (i : nat) (fr : frame) : Prop :=
  forall s, size_local fr = Some s ->
    exists j, (j < i)%nat /\ getposition b j = 0 /\ share_count b j = Ok s.

(** The feed of index [i] has reached [seq_length] closes with this bar,
    and the classifier answers [pred] with a confidence above the
    threshold on its feature text. *)
Definition signalled (ag : agent) (b : bar) (i : nat) (pred : Z) : Prop :=
  exists d text conf,
    datas ag !! i = Some d /\
    seq_length params <= Z.of_nat (length (lookback d)) + 1 /\
    feature_text (lookback d ++ [close0 b i]) = Ok text /\
    classify text = Ok (pred, conf) /\
    (threshold params <? conf)%float = true.

(** What justifies an order. *)
Definition justified (ag : agent) (b : bar) (ev : event) : Prop :=
  match ev with
  | Close i =>
      getposition b i = 0 /\ signalled ag b i 2 /\
      exists s, share_count b i = Ok s /\ 0 < s
  | Buy i s =>
      getposition b i <> 0 /\ signalled ag b i 0 /\
      exists j, (j < i)%nat /\ getposition b j = 0 /\
                share_count b j = Ok s
  | Infer _ _ | Print _ => True
  end.

(** The model call raises [e] on the feature text of some feed whose
    buffer has reached [seq_length] with this bar. *)
Definition model_failure (ag : agent) (b : bar) (e : exn) : Prop :=
  exists i d text,
    datas ag !! i = Some d /\
    seq_length params <= Z.of_nat (length (lookback d)) + 1 /\
    feature_text (lookback d ++ [close0 b i]) = Ok text /\
    classify text = Raise e.

(** The exceptions [next] can end with: one of the model call, or one of
    its own arithmetic and of its unbound local. *)
Definition failure (ag : agent) (b : bar) (e : exn) : Prop :=
  model_failure ag b e \/
  e = float_division_by_zero \/ e = nan_to_integer \/
  e = infinity_to_integer \/
  (e = unbound_local "size" /\
   exists i, (i < length (datas ag))%nat /\ getposition b i <> 0).

(** The signal table while the loop is at index [k]: untouched from [k]
    on, and below [k] holding this bar's prediction for every feed that
    got one. *)
Definition signals_upto (ag : agent) (b : bar) (k : nat) (fr : frame)
  : Prop :=
  (forall j, (k <= j)%nat -> signals fr !! j = model_signals ag !! j) /\
  (forall j d, (j < k)%nat -> datas ag !! j = Some d ->
     (Z.of_nat (length (lookback d)) + 1 < seq_length params ->
      signals fr !! j = model_signals ag !! j) /\
     (forall text,
        feature_text (lookback d ++ [close0 b j]) = Ok text ->
        seq_length params <= Z.of_nat (length (lookback d)) + 1 ->
        exists pred conf,
          classify text = Ok (pred, conf) /\
          signals fr !! j = Some pred)).

End Policy.

End AgentTerms.

(* ===================================================================== *)
(** ** Sample inputs *)
(* ===================================================================== *)

Module Scenario.
Import Py Agent Runner.
Local Open Scope string_scope.
Local Open Scope Z_scope.

(** A classifier that answers the same class and confidence on every
    text. *)
Definition always (pred : Z) (conf : float) (text : string)
  : result (Z * float) :=
  Ok (pred, conf).

(** A classifier that says up on a flat window of three closes and down on
    any other text. *)
Definition up_when_flat (text : string) : result (Z * float) :=
  if String.eqb text "Price movements: 0.0000 0.0000 0.0000"
  then Ok (2, 0.9%float) else Ok (0, 0.9%float).

(** A model that cannot be reached. *)
Definition unavailable (text : string) : result (Z * float) :=
  Raise (Exn (OtherException "RuntimeError") "device unavailable").

(** The feature text of ten equal closes. *)
Definition flat_text : string :=
  "Price movements: 0.0000 0.0000 0.0000 0.0000 0.0000 0.0000 0.0000 0.0000 0.0000 0.0000".

(** The defaults, with a window of three closes. *)
Definition short_window : Params := {|
  model_name := "distilbert-base-uncased";
  seq_length := 3;
  threshold := 0.6;
  position_size := 0.15
|}.

(** The defaults, with a window length of zero. *)
Definition no_window : Params := {|
  model_name := "distilbert-base-uncased";
  seq_length := 0;
  threshold := 0.6;
  position_size := 0.15
|}.

(** A strategy with one feed that has seen [closes] already. *)
Definition warmed (name : string) (closes : list float) : agent := {|
  datas := [Data name closes];
  model_signals := <[0%nat := 0]> ∅
|}.

(** A bar on which every feed closes at [price] with [held] shares open. *)
Definition quote (cash price : float) (held : Z) : bar :=
  Bar cash (fun _ => price) (fun _ => held).

(** Two feeds two closes into a window of three; on the next bar the first
    is flat and closes at 100, the second holds 7 shares and closes at
    102. *)
Definition pair : agent := {|
  datas := [Data "SPY" [100; 100]%float; Data "QQQ" [100; 101]%float];
  model_signals := <[1%nat := 0]> (<[0%nat := 0]> ∅)
|}.

Definition pair_bar : bar :=
  Bar 10000
      (fun i => match i with O => 100 | _ => 102 end)%float
      (fun i => match i with O => 0 | _ => 7 end).

(** Sample analyzer outputs. [no_trades] is what the trade analyzer holds
    when no trade was opened; [one_win] after a single closed, winning
    trade. *)
Definition no_attr (v : value) (k : string) : option value := None.

Definition no_trades : value :=
  VDict [("total", VDict [("total", VInt 0)])].

Definition flat_book : value :=
  VDict [("total", VDict [("total", VInt 1); ("open", VInt 1);
                          ("closed", VInt 0)])].

Definition one_win : value :=
  VDict
    [("total", VDict [("total", VInt 1); ("open", VInt 0);
                      ("closed", VInt 1)]);
     ("won", VDict [("total", VInt 1);
                    ("pnl", VDict [("total", VFloat 50);
                                   ("average", VFloat 50)])]);
     ("lost", VDict [("total", VInt 0);
                     ("pnl", VDict [("total", VFloat 0);
                                    ("average", VFloat 0)])])].

(** A simulation without a single trade: the analyses of a run that left
    the starting cash untouched. *)
Definition idle_run : analyses := {|
  initial_value := 10000;
  final_value := 10000;
  sharpe_analysis := VDict [("sharperatio", VNone)];
  drawdown_analysis :=
    VDict [("len", VInt 0); ("drawdown", VFloat 0); ("moneydown", VFloat 0);
           ("max", VDict [("len", VInt 0); ("drawdown", VFloat 0);
                          ("moneydown", VFloat 0)])];
  trade_analysis := no_trades;
  returns_analysis :=
    VDict [("rtot", VFloat 0); ("ravg", VFloat 0); ("rnorm", VFloat 0);
           ("rnorm100", VFloat 0)];
  calmar_analysis := VDict [];
  sqn_analysis := VDict [("sqn", VInt 0); ("trades", VInt 0)];
  annual_return_analysis := VDict [("2023", VFloat 0); ("2024", VFloat 0)]
|}.

(** The trade analysis after two winning and one losing closed trade, and
    a simulation that ends with it. *)
Definition mixed_book : value :=
  VDict
    [("total", VDict [("total", VInt 3); ("open", VInt 0);
                      ("closed", VInt 3)]);
     ("won", VDict [("total", VInt 2);
                    ("pnl", VDict [("total", VFloat 50);
                                   ("average", VFloat 25)])]);
     ("lost", VDict [("total", VInt 1);
                     ("pnl", VDict [("total", VFloat (-20));
                                    ("average", VFloat (-20))])])].

Definition busy_run : analyses := {|
  initial_value := 10000;
  final_value := 10030;
  sharpe_analysis := VDict [("sharperatio", VFloat 0.5)];
  drawdown_analysis :=
    VDict [("max", VDict [("len", VInt 4); ("drawdown", VFloat 0.2);
                          ("moneydown", VFloat 20)])];
  trade_analysis := mixed_book;
  returns_analysis := VDict [("rnorm", VFloat 0.003)];
  calmar_analysis := VDict [];
  sqn_analysis := VDict [("sqn", VFloat 1.5); ("trades", VInt 3)];
  annual_return_analysis := VDict [("2023", VFloat 0.003)]
|}.

Definition busy_simulation (syms : list string) (s e : string) (r : float)
  : result analyses := Ok busy_run.

Definition unwritable (rd : results_data_t) : result unit :=
  Raise (Exn (OtherException "PermissionError") "Permission denied").

Definition no_text (rd : results_data_t) : string := "".

Definition idle_simulation (syms : list string) (s e : string) (r : float)
  : result analyses := Ok idle_run.

Definition written (rd : results_data_t) : result unit := Ok tt.

End Scenario.

(* ===================================================================== *)
(** ** Properties of the runtime fragment *)
(* ===================================================================== *)

Module PySpec.
Import Py.
Local Open Scope string_scope.

Lemma length_append (s1 s2 : string) :
  String.length (s1 ++ s2) = (String.length s1 + String.length s2)%nat.
Proof. induction s1 as [|c s1 IH]; simpl; [reflexivity|now rewrite IH]. Qed.

Lemma zeros_length (p : nat) : String.length (zeros p) = p.
Proof. induction p; simpl; congruence. Qed.

Lemma padded_length (p : nat) (n : Z) : String.length (padded p n) = p.
Proof.
  revert n. induction p as [|p IH]; intros n; trivial.
  cbn [padded]. rewrite length_append, IH. simpl. lia.
Qed.

Lemma finite_cases (x : float) :
  PrimFloat.is_finite x = true ->
  (exists s, Prim2SF x = S754_zero s) \/
  (exists s m e, Prim2SF x = S754_finite s m e).
Proof.
  unfold PrimFloat.is_finite, PrimFloat.is_nan, PrimFloat.is_infinity.
  rewrite !FloatAxioms.eqb_spec, FloatAxioms.abs_spec.
  change (Prim2SF infinity) with (S754_infinity false).
  destruct (Prim2SF x) as [s|s| |s m e]; simpl; try discriminate; eauto.
  destruct s; discriminate.
Qed.

(** [format(x, '.pf')] of a finite float ends in a point and exactly [p]
    digits. *)
Lemma format_f_places (p : nat) (x : float) :
  PrimFloat.is_finite x = true ->
  exists whole frac,
    format_f p x = whole ++ "." ++ frac /\ String.length frac = p.
Proof.
  intros H. unfold format_f.
  destruct (finite_cases x H) as [[s ->]|(s & m & e & ->)].
  - exists (sign_str s ++ "0"), (zeros p). split; [|apply zeros_length].
    destruct s; reflexivity.
  - exists (sign_str s ++ decimal (scaled p m e / 10 ^ Z.of_nat p)),
      (padded p (scaled p m e mod 10 ^ Z.of_nat p)).
    split; [|apply padded_length].
    destruct s; reflexivity.
Qed.

(** *** Division of integers *)

Lemma digits2_size p : digits2_pos p = Pos.size p.
Proof. induction p; simpl; congruence. Qed.

Lemma Zdigits2_log2 z : 0 < z -> Zdigits2 z = Z.log2 z + 1.
Proof.
  destruct z as [|p|p]; try lia. intros _. cbn [Zdigits2].
  rewrite digits2_size. destruct p; simpl; lia.
Qed.

Lemma Zdigits2_le z k : 0 <= z <= 2 ^ k -> 0 <= k -> Zdigits2 z <= k + 1.
Proof.
  intros [H0 Hz] Hk. destruct (Z.eq_dec z 0) as [->|Hn]; [simpl; lia|].
  rewrite Zdigits2_log2 by lia.
  pose proof (Z.log2_le_mono z (2 ^ k) Hz). rewrite Z.log2_pow2 in H by lia. lia.
Qed.

Lemma shr_1_le mrs : 0 <= shr_m mrs -> 0 <= shr_m (shr_1 mrs) <= shr_m mrs.
Proof. destruct mrs as [[|[p|p|]|p] r s]; cbn; lia. Qed.

Lemma iter_shr_1_le p mrs :
  0 <= shr_m mrs -> 0 <= shr_m (SpecFloat.iter_pos shr_1 p mrs) <= shr_m mrs.
Proof.
  revert mrs. induction p as [p IH|p IH|]; intros mrs H; cbn [SpecFloat.iter_pos].
  - pose proof (shr_1_le mrs H). pose proof (IH (shr_1 mrs) ltac:(lia)).
    pose proof (IH (SpecFloat.iter_pos shr_1 p (shr_1 mrs)) ltac:(lia)). lia.
  - pose proof (IH mrs H). pose proof (IH (SpecFloat.iter_pos shr_1 p mrs) ltac:(lia)). lia.
  - apply shr_1_le, H.
Qed.

Lemma shr_record_of_loc_m m l : shr_m (shr_record_of_loc m l) = m.
Proof. destruct l as [|[]]; reflexivity. Qed.

Lemma shr_fexp_bounds m e l :
  0 <= m ->
  let r := shr_fexp prec emax m e l in
  0 <= shr_m (fst r) <= m /\
  snd r <= Z.max e (fexp prec emax (Zdigits2 m + e)).
Proof.
  intros Hm. unfold shr_fexp, shr.
  destruct (fexp prec emax (Zdigits2 m + e) - e) as [|p|p] eqn:E; cbn [fst snd];
    rewrite ?shr_record_of_loc_m; try lia.
  pose proof (iter_shr_1_le p (shr_record_of_loc m l)) as H.
  rewrite shr_record_of_loc_m in H. split; [auto|lia].
Qed.

Lemma round_nearest_even_le m l : 0 <= m -> 0 <= round_nearest_even m l <= m + 1.
Proof. destruct l as [|[]]; cbn; try destruct (Z.even m); lia. Qed.

(** A quotient of at most 1 in magnitude is rounded to a zero or to a
    finite number. *)
Lemma binary_round_aux_finite s m e l :
  0 <= m <= 2 ^ (- e) -> -1074 <= e <= -53 ->
  forall s', binary_round_aux prec emax s m e l <> S754_infinity s'.
Proof.
  intros [Hm0 Hm] He s'. unfold binary_round_aux.
  pose proof (shr_fexp_bounds m e l Hm0) as H1.
  destruct (shr_fexp prec emax m e l) as [mrs1 e1]. cbn [fst snd] in H1.
  destruct H1 as [Hm1 He1].
  pose proof (round_nearest_even_le (shr_m mrs1) (loc_of_shr_record mrs1)
                ltac:(lia)) as Hr.
  set (m2 := round_nearest_even (shr_m mrs1) (loc_of_shr_record mrs1)) in *.
  pose proof (shr_fexp_bounds m2 e1 loc_Exact ltac:(lia)) as H2.
  destruct (shr_fexp prec emax m2 e1 loc_Exact) as [mrs2 e2].
  cbn [fst snd] in H2. destruct H2 as [Hm2 He2].
  pose proof (Zdigits2_le m (- e) ltac:(lia) ltac:(lia)) as Hd.
  assert (Hd2 : Zdigits2 m2 <= - e + 2).
  { pose proof (Zdigits2_le m2 (- e + 1)) as H.
    replace (2 ^ (- e + 1)) with (2 * 2 ^ (- e)) in H
      by (rewrite Z.pow_add_r by lia; lia).
    assert (0 < 2 ^ (- e)) by (apply Z.pow_pos_nonneg; lia). lia. }
  unfold fexp, SpecFloat.emin, prec, emax in *.
  destruct (shr_m mrs2) as [|p|p]; try discriminate.
  destruct (Z.leb_spec e2 (1024 - 53)); [discriminate|]. lia.
Qed.

Lemma SFdiv_core_small (px py : positive) :
  (px <= py)%positive ->
  let '(q, e, l) := SFdiv_core_binary prec emax (Zpos px) 0 (Zpos py) 0 in
  0 <= q <= 2 ^ (- e) /\ -1074 <= e <= -53.
Proof.
  intros Hle. unfold SFdiv_core_binary.
  assert (Hd : Zdigits2 (Zpos px) <= Zdigits2 (Zpos py)).
  { rewrite !Zdigits2_log2 by lia.
    pose proof (Z.log2_le_mono (Zpos px) (Zpos py)). lia. }
  set (d := Zdigits2 (Z.pos px) + 0 - (Zdigits2 (Z.pos py) + 0)).
  assert (He : -1074 <= Z.min (fexp prec emax d) (0 - 0) <= -53).
  { unfold fexp, SpecFloat.emin, prec, emax. lia. }
  set (e := Z.min (fexp prec emax d) (0 - 0)) in *.
  destruct (0 - 0 - e) as [|s|s] eqn:Es; try lia.
  pose proof (Z_div_mod (Z.shiftl (Zpos px) (Zpos s)) (Zpos py) ltac:(lia)) as Hdm.
  destruct (Z.div_eucl (Z.shiftl (Z.pos px) (Z.pos s)) (Z.pos py)) as [q r].
  destruct Hdm as [Heq Hr]. rewrite Z.shiftl_mul_pow2 in Heq by lia.
  replace (- e) with (Zpos s) by lia. split; [|lia].
  assert (0 < 2 ^ Z.pos s) by (apply Z.pow_pos_nonneg; lia).
  split; nia.
Qed.

Lemma SFdiv_small x y :
  y <> 0 -> Z.abs x <= Z.abs y ->
  forall s, SFdiv prec emax (spec_of_Z x) (spec_of_Z y) <> S754_infinity s.
Proof.
  intros Hy Hxy s.
  destruct x as [|px|px], y as [|py|py]; try lia; try discriminate;
    cbn [spec_of_Z SFdiv];
    (pose proof (SFdiv_core_small px py ltac:(lia)) as H;
     destruct (SFdiv_core_binary prec emax (Zpos px) 0 (Zpos py) 0) as [[q e] l];
     destruct H as [Hq He]; now apply binary_round_aux_finite).
Qed.

Lemma int_truediv_raise (x y : Z) (e : exn) :
  int_truediv x y = Raise e ->
  (y = 0 /\ e = division_by_zero) \/
  (y <> 0 /\ e = division_result_too_large).
Proof.
  unfold int_truediv. destruct (Z.eqb_spec y 0) as [->|Hy].
  - intros [= <-]. now left.
  - destruct (SFdiv prec emax (spec_of_Z x) (spec_of_Z y));
      intros [= <-]. now right.
Qed.

(** No quotient of at most 1 in magnitude is too large for a float. *)
Lemma int_truediv_small (x y : Z) :
  y <> 0 -> Z.abs x <= Z.abs y -> exists q, int_truediv x y = Ok q.
Proof.
  intros Hy Hxy. unfold int_truediv.
  destruct (Z.eqb_spec y 0) as [|_]; [contradiction|].
  pose proof (SFdiv_small x y Hy Hxy) as H.
  destruct (SFdiv prec emax (spec_of_Z x) (spec_of_Z y)) as [s|s| |s m e];
    eauto.
  now destruct (H s).
Qed.

Lemma float_of_int_raise (n : Z) (e : exn) :
  float_of_int n = Raise e -> e = int_too_large.
Proof.
  unfold float_of_int. destruct (PrimFloat.is_infinity _); now intros [= <-].
Qed.

End PySpec.

(* ===================================================================== *)
(** ** Properties of the reducer *)
(* ===================================================================== *)

Module RunnerSpec.
Import Py Runner Scenario.
Local Open Scope string_scope.
Local Open Scope Z_scope.
Local Open Scope py_scope.

Section Lookup.

Variable attr : value -> string -> option value.

Local Abbreviation entry := (entry attr).
Local Abbreviation get_path := (get_path attr).
Local Abbreviation descend := (descend attr).
Local Abbreviation safe_get := (safe_get attr).
Local Abbreviation key_missing := (key_missing attr).
Local Abbreviation none_traversed := (none_traversed attr).
Local Abbreviation nan_final := (nan_final attr).
Local Abbreviation present := (present attr).

Lemma is_None_true v : is_None v = true <-> v = VNone.
Proof. destruct v; simpl; split; intros H; congruence. Qed.

Lemma is_None_false v : is_None v = false <-> v <> VNone.
Proof. destruct v; simpl; split; intros H; congruence. Qed.

(** One step of the loop reads the entry, [None] standing for a missing
    one. *)
Lemma step_entry v k :
  match v with
  | VDict items => dict_get items k
  | _ => getattr attr v k
  end = default VNone (entry v k).
Proof. destruct v; reflexivity. Qed.

Lemma descend_cons v k ks :
  descend v (k :: ks) =
  match entry v k with
  | Some v' => if is_None v' then None else descend v' ks
  | None => None
  end.
Proof.
  cbn [Runner.descend]. rewrite step_entry.
  destruct (entry v k); reflexivity.
Qed.

Lemma key_missing_cons a k v ks :
  entry a k = Some v -> key_missing v ks -> key_missing a (k :: ks).
Proof.
  intros He (ks1 & k0 & ks2 & w & -> & Hp & Hw).
  exists (k :: ks1), k0, ks2, w. repeat split; trivial.
  cbn [Runner.get_path]. now rewrite He.
Qed.

Lemma none_traversed_cons a k v ks :
  entry a k = Some v -> none_traversed v ks -> none_traversed a (k :: ks).
Proof.
  intros He (ks1 & ks2 & -> & Hp).
  exists (k :: ks1), ks2. split; trivial.
  cbn [Runner.get_path]. now rewrite He.
Qed.

Lemma key_missing_inv a k v ks :
  entry a k = Some v -> key_missing a (k :: ks) -> key_missing v ks.
Proof.
  intros He (ks1 & k0 & ks2 & w & Hs & Hp & Hw).
  destruct ks1 as [|k1 ks1]; simpl in Hs; injection Hs as <- ->.
  - simpl in Hp. injection Hp as <-. congruence.
  - cbn [Runner.get_path] in Hp. rewrite He in Hp.
    now exists ks1, k0, ks2, w.
Qed.

Lemma none_traversed_inv a k v ks :
  a <> VNone -> entry a k = Some v ->
  none_traversed a (k :: ks) -> none_traversed v ks.
Proof.
  intros Ha He (ks1 & ks2 & Hs & Hp).
  destruct ks1 as [|k1 ks1]; simpl in Hs.
  - simpl in Hp. congruence.
  - injection Hs as <- ->.
    cbn [Runner.get_path] in Hp. rewrite He in Hp.
    now exists ks1, ks2.
Qed.

(** What the loop of [safe_get] computes, in the vocabulary of the
    contract. *)
Lemma descend_cases a ks :
  a <> VNone ->
  match descend a ks with
  | Some v =>
      get_path a ks = Some v /\ v <> VNone /\
      ~ key_missing a ks /\ ~ none_traversed a ks
  | None => key_missing a ks \/ none_traversed a ks
  end.
Proof.
  revert a. induction ks as [|k ks IH]; intros a Ha.
  - simpl. repeat split; trivial.
    + intros (ks1 & k0 & ks2 & w & Hs & _). now destruct ks1.
    + intros (ks1 & ks2 & Hs & Hp).
      destruct ks1; [|discriminate]. simpl in Hp. congruence.
  - rewrite descend_cons. destruct (entry a k) as [v|] eqn:He.
    + destruct (is_None v) eqn:Hv.
      * apply is_None_true in Hv. subst v. right.
        exists [k], ks. split; trivial.
        cbn [Runner.get_path]. now rewrite He.
      * apply is_None_false in Hv. specialize (IH v Hv).
        destruct (descend v ks) as [r|].
        -- destruct IH as (Hp & Hr & Hm & Hn).
           split; [cbn [Runner.get_path]; now rewrite He|].
           split; [trivial|]. split; intros H.
           ++ exact (Hm (key_missing_inv a k v ks He H)).
           ++ exact (Hn (none_traversed_inv a k v ks Ha He H)).
        -- destruct IH as [H|H]; [left|right].
           ++ eapply key_missing_cons; eauto.
           ++ eapply none_traversed_cons; eauto.
    + left. exists [], k, ks, a. repeat split; trivial.
Qed.

Lemma safe_get_unfold a keys d :
  safe_get a keys d =
  if is_None a then Ok d
  else match descend a (key_list keys) with
       | None => Ok d
       | Some val => if is_nan_float val then Ok d else Ok val
       end.
Proof.
  unfold Runner.safe_get.
  destruct (is_None a); trivial.
  destruct (Runner.descend _ _ _) as [v|]; trivial.
  destruct (is_nan_float v); reflexivity.
Qed.

(** A path that does not lead to a value gives the default. *)
Lemma safe_get_absent a keys d :
  key_missing a (key_list keys) \/ none_traversed a (key_list keys) ->
  safe_get a keys d = Ok d.
Proof.
  intros H. rewrite safe_get_unfold.
  destruct (is_None a) eqn:Ha; trivial.
  apply is_None_false in Ha.
  pose proof (descend_cases a (key_list keys) Ha) as Hd.
  destruct (descend a (key_list keys)); trivial. tauto.
Qed.

Lemma present_descend a ks v : present a ks v -> descend a ks = Some v.
Proof.
  induction 1 as [v Hv | v k v' ks r Hv He Hp IH]; trivial.
  rewrite descend_cons, He.
  assert (Hv' : v' <> VNone) by (inversion Hp; trivial).
  apply is_None_false in Hv'. now rewrite Hv'.
Qed.

Lemma present_not_None a ks v : present a ks v -> a <> VNone.
Proof. now inversion 1. Qed.

Lemma falsy_not_nan v : truthy v = false -> is_nan_float v = false.
Proof.
  destruct v as [| | |x| |]; trivial. simpl. intros H.
  apply negb_false_iff in H.
  destruct (PrimFloat.is_nan x) eqn:Hn; trivial.
  unfold PrimFloat.is_nan in Hn. apply negb_true_iff in Hn.
  rewrite FloatAxioms.eqb_spec in H, Hn.
  change (Prim2SF 0) with (S754_zero false) in H.
  destruct (Prim2SF x) as [s|s| |s m e]; try discriminate;
    destruct s; discriminate.
Qed.

(** C5. [safe_get] returns the declared default whenever a key of the path
    is missing, whenever a value traversed at any depth is [None], and
    whenever the final value is a NaN float; otherwise it returns the value
    at the end of the path. It never raises. *)
Theorem safe_get_contract (a : value) (keys : keyspec) (d : value) :
  let ks := key_list keys in
  (key_missing a ks \/ none_traversed a ks \/ nan_final a ks ->
   safe_get a keys d = Ok d) /\
  (~ (key_missing a ks \/ none_traversed a ks \/ nan_final a ks) ->
   exists v, get_path a ks = Some v /\ safe_get a keys d = Ok v) /\
  raises (safe_get a keys d) = false.
Proof.
  intros ks. rewrite safe_get_unfold. fold ks.
  destruct (is_None a) eqn:Ha.
  - apply is_None_true in Ha. subst a. repeat split; trivial.
    intros H. exfalso. apply H. right. left.
    exists [], ks. split; trivial.
  - apply is_None_false in Ha.
    pose proof (descend_cases a ks Ha) as Hd.
    destruct (descend a ks) as [v|].
    + destruct Hd as (Hp & Hv & Hm & Hn).
      destruct (is_nan_float v) eqn:Hnan.
      * repeat split; trivial.
        intros H. exfalso. apply H. right. right.
        destruct v; try discriminate. now exists x.
      * split; [|split; [eauto|trivial]].
        intros [H|[H|(x & Hx & Hnx)]]; [tauto|tauto|].
        rewrite Hp in Hx. injection Hx as ->. simpl in Hnan. congruence.
    + repeat split; trivial. tauto.
Qed.

Lemma falsy_number v :
  truthy v = false -> as_number v <> None ->
  gt_zero v = Ok false /\ ne_zero v = false.
Proof.
  intros Hf Hnum. unfold gt_zero, ne_zero.
  destruct v as [|b|n|x| |]; simpl in *; try congruence.
  - now subst b.
  - apply negb_false_iff in Hf. rewrite Hf.
    apply Z.eqb_eq in Hf. now subst n.
  - apply negb_false_iff in Hf. rewrite Hf. split; trivial. f_equal.
    rewrite FloatAxioms.ltb_spec.
    rewrite FloatAxioms.eqb_spec in Hf.
    change (Prim2SF 0) with (S754_zero false) in *.
    destruct (Prim2SF x) as [s|s| |s m e]; try discriminate;
      trivial; destruct s; discriminate.
Qed.

(** A value that is present at the end of the path is returned as it is
    even when it is falsy (the integer 0, the float 0.0, [False], an empty
    string or dict): the default never replaces it. *)
Lemma safe_get_keeps_falsy (a : value) (keys : keyspec) (d v : value) :
  present a (key_list keys) v ->
  truthy v = false ->
  safe_get a keys d = Ok v.
Proof.
  intros Hp Hf. rewrite safe_get_unfold.
  pose proof (present_not_None _ _ _ Hp) as Ha.
  apply is_None_false in Ha. rewrite Ha.
  rewrite (present_descend _ _ _ Hp).
  now rewrite (falsy_not_nan _ Hf).
Qed.

(** The win-rate check reads the path of its denominator, [total.closed]:
    a zero count there is seen, and the result is 0. *)
Lemma win_rate_sees_zero (a v : value) :
  present a ["total"; "closed"] v ->
  truthy v = false -> as_number v <> None ->
  win_rate_pct attr a = Ok (VInt 0).
Proof.
  intros Hp Hf Hnum. unfold win_rate_pct.
  rewrite (safe_get_keeps_falsy a (Keys ["total"; "closed"]) VNone v Hp Hf).
  cbn [bind]. now rewrite (proj1 (falsy_number v Hf Hnum)).
Qed.

(** A division by a number that is zero raises: [ZeroDivisionError], or
    the [OverflowError] of an integer dividend beyond the floats that
    meets a float zero. *)
Lemma truediv_by_zero (w v : value) :
  as_number w <> None ->
  truthy v = false -> as_number v <> None ->
  exists e, truediv w v = Raise e /\
            (exn_cls e = ZeroDivisionError \/ exn_cls e = OverflowError).
Proof.
  intros Hw Hf Hv. unfold truediv.
  assert (Hz : as_number v = Some (NInt 0) \/
               exists y, as_number v = Some (NFloat y) /\
                         (y =? 0)%float = true).
  { destruct v as [|b|n|y| |]; simpl in *; try congruence.
    - subst b. now left.
    - apply negb_false_iff, Z.eqb_eq in Hf. subst n. now left.
    - apply negb_false_iff in Hf. right. eauto. }
  destruct (as_number w) as [[x|x]|]; [| |congruence];
    destruct Hz as [->|(y & -> & Hy)]; cbn [to_float bind].
  - eexists. split; [reflexivity|]. now left.
  - destruct (float_of_int x) as [x'|e] eqn:E; cbn [bind].
    + unfold float_truediv. rewrite Hy. eexists. split; [reflexivity|].
      now left.
    + unfold float_of_int in E.
      destruct (PrimFloat.is_infinity _); [|discriminate].
      injection E as <-. eexists. split; [reflexivity|]. now right.
  - eexists. split; [reflexivity|]. now left.
  - unfold float_truediv. rewrite Hy. eexists. split; [reflexivity|].
    now left.
Qed.

(** The profit-factor check reads [lost.pnl5.total], not the path of its
    denominator, [lost.pnl.total]. Where the path read leads nowhere, a
    zero denominator is not seen: [safe_get] hands the zero, not the
    default 1, to the division, which raises. *)
Lemma profit_factor_zero_unseen (a v w : value) :
  key_missing a ["lost"; "pnl5"; "total"] \/
  none_traversed a ["lost"; "pnl5"; "total"] ->
  present a ["lost"; "pnl"; "total"] v ->
  truthy v = false -> as_number v <> None ->
  safe_get a (Keys ["won"; "pnl"; "total"]) (VInt 0) = Ok w ->
  as_number w <> None ->
  exists e, profit_factor attr a = Raise e /\
            (exn_cls e = ZeroDivisionError \/ exn_cls e = OverflowError).
Proof.
  intros Hg Hp Hf Hv Hw Hnum. unfold profit_factor.
  rewrite (safe_get_absent a (Keys ["lost"; "pnl5"; "total"]) VNone Hg).
  cbn [bind ne_zero as_number]. rewrite Hw. cbn [bind].
  rewrite (safe_get_keeps_falsy a (Keys ["lost"; "pnl"; "total"])
             (VInt 1) v Hp Hf). cbn [bind].
  destruct (truediv_by_zero w v Hnum Hf Hv) as (e & -> & He). eauto.
Qed.

End Lookup.

(** A key that is missing two levels down gives the default; nothing is
    raised. *)
Lemma safe_get_contract_witness :
  safe_get no_attr one_win (Keys ["lost"; "pnl"; "median"]) (VInt 7)
    = Ok (VInt 7) /\
  raises (safe_get no_attr one_win (Keys ["lost"; "pnl"; "median"]) (VInt 7))
    = false.
Proof.
  destruct (safe_get_contract no_attr one_win
              (Keys ["lost"; "pnl"; "median"]) (VInt 7)) as (Hd & _ & Hr).
  split; [|exact Hr]. apply Hd. left.
  exists ["lost"; "pnl"], "median", [],
    (VDict [("total", VFloat 0); ("average", VFloat 0)]).
  repeat split; reflexivity.
Defined.

(** C10 (where the code departs from it). [safe_get] does return a value
    that is present and falsy, whatever the default (1). The win-rate
    check, which reads the path of its denominator, sees a zero count and
    yields 0 (2). The profit-factor check does not: it reads
    [lost.pnl5.total], so a zero under [lost.pnl.total], the denominator,
    goes unseen and is divided by (3). After one closed, winning trade
    ([one_win]) the denominator looked up is the float 0.0, not the default
    1, and the result is a [ZeroDivisionError] (4). *)
Theorem zero_denominator_unseen_by_profit_factor :
  forall attr,
    (forall a keys d v,
       present attr a (key_list keys) v -> truthy v = false ->
       safe_get attr a keys d = Ok v) /\
    (forall a v,
       present attr a ["total"; "closed"] v ->
       truthy v = false -> as_number v <> None ->
       win_rate_pct attr a = Ok (VInt 0)) /\
    (forall a v w,
       key_missing attr a ["lost"; "pnl5"; "total"] \/
       none_traversed attr a ["lost"; "pnl5"; "total"] ->
       present attr a ["lost"; "pnl"; "total"] v ->
       truthy v = false -> as_number v <> None ->
       safe_get attr a (Keys ["won"; "pnl"; "total"]) (VInt 0) = Ok w ->
       as_number w <> None ->
       exists e, profit_factor attr a = Raise e /\
                 (exn_cls e = ZeroDivisionError \/
                  exn_cls e = OverflowError)) /\
    (safe_get attr flat_book (Keys ["total"; "closed"]) (VInt 1)
       = Ok (VInt 0) /\
     win_rate_pct attr flat_book = Ok (VInt 0) /\
     safe_get attr one_win (Keys ["lost"; "pnl"; "total"]) (VInt 1)
       = Ok (VFloat 0) /\
     safe_get attr one_win (Keys ["lost"; "pnl5"; "total"]) VNone
       = Ok VNone /\
     profit_factor attr one_win = Raise float_division_by_zero).
Proof.
  intros attr. split; [|split; [|split]].
  - intros a keys d v. apply safe_get_keeps_falsy.
  - apply win_rate_sees_zero.
  - apply profit_factor_zero_unseen.
  - repeat split; reflexivity.
Qed.

(** C4 (where the code departs from it). Whenever the trade analyzer has
    no [total.closed] entry, the guard of [win_rate_pct] compares [None]
    with 0 and raises [TypeError]: so after a run without trades
    ([no_trades]) and on an empty analysis. *)
Theorem win_rate_pct_without_closed_entry :
  forall attr,
    (forall ta,
       key_missing attr ta ["total"; "closed"] \/
       none_traversed attr ta ["total"; "closed"] ->
       win_rate_pct attr ta = Raise (not_supported ">" VNone (VInt 0))) /\
    win_rate_pct attr no_trades = Raise (not_supported ">" VNone (VInt 0)) /\
    win_rate_pct attr (VDict []) = Raise (not_supported ">" VNone (VInt 0)).
Proof.
  intros attr. split; [|split; reflexivity].
  intros ta H. unfold win_rate_pct.
  now rewrite (safe_get_absent attr ta (Keys ["total"; "closed"]) VNone H).
Qed.

(** Where the entry exists the guard works as the table says. *)
Example win_rate_pct_closed_zero :
  forall attr, win_rate_pct attr flat_book = Ok (VInt 0).
Proof. reflexivity. Qed.

Example win_rate_pct_one_win :
  forall attr, win_rate_pct attr one_win = Ok (VFloat 100).
Proof. reflexivity. Qed.

(** C3 (where the code departs from it). The guard of [profit_factor]
    reads the path [lost.pnl5.total]. Where that path leads nowhere, as in
    every output of the trade analyzer, the guard does not see the
    denominator and the result is never [None]: with [lost.pnl.total]
    equal to 0 the division raises [ZeroDivisionError], and with the
    denominator absent the result is [abs(won / 1)]. *)
Theorem profit_factor_guard_misses :
  forall attr,
    (forall ta,
       key_missing attr ta ["lost"; "pnl5"; "total"] \/
       none_traversed attr ta ["lost"; "pnl5"; "total"] ->
       profit_factor attr ta <> Ok VNone) /\
    profit_factor attr one_win = Raise float_division_by_zero /\
    profit_factor attr no_trades = Ok (VFloat 0) /\
    profit_factor attr (VDict []) = Ok (VFloat 0).
Proof.
  intros attr. split; [|repeat split; reflexivity].
  intros ta H. unfold profit_factor.
  rewrite (safe_get_absent attr ta (Keys ["lost"; "pnl5"; "total"]) VNone H).
  cbn [bind ne_zero as_number].
  destruct (safe_get attr ta _ _) as [won|]; [|discriminate]. cbn [bind].
  destruct (safe_get attr ta _ _) as [lost|]; [|discriminate]. cbn [bind].
  destruct (truediv won lost); discriminate.
Qed.

Section Script.

Variable attr : value -> string -> option value.
Variable simulate :
  list string -> string -> string -> float -> result analyses.
Variable read_symbols : result (list string).
Variable emit : results_data_t -> result unit.

Local Abbreviation run_backtest := (run_backtest attr simulate).
Local Abbreviation attempt := (attempt attr simulate).
Local Abbreviation main := (main attr simulate read_symbols emit).

(** An exception of the [try] block comes from the simulation or from the
    reduction of its analyses. *)
Lemma attempt_raises syms s e r x :
  attempt syms s e r = Raise x <->
  simulate syms s e r = Raise x \/
  exists a, simulate syms s e r = Ok a /\ consolidate attr a = Raise x.
Proof.
  unfold Runner.attempt. destruct (simulate syms s e r) as [a|y]; simpl.
  - split; [eauto|]. intros [H|(a' & H & Hc)]; congruence.
  - split; [intros [= ->]; now left|].
    intros [H|(a' & H & _)]; congruence.
Qed.

(** C9. An exception raised while the simulation is set up and run, or
    while its analyses are reduced, leaves [str(e)] in the [error] field of
    the result record, whose parameters hold the symbols and the date
    range, and is raised again by [run_backtest]; the script then exits
    with a non-zero status. A run that returns and whose record is written
    out exits with status 0. *)
Theorem failure_recorded_and_fatal :
  (forall syms s e r x,
     (simulate syms s e r = Raise x \/
      exists a, simulate syms s e r = Ok a /\ consolidate attr a = Raise x) ->
     let c := run_backtest syms s e r in
     error (results_data c) = Some (str x) /\
     parameters (results_data c) =
       {| symbols := syms; start_date := s; end_date := e |} /\
     outcome c = Raise x) /\
  (forall syms x,
     read_symbols = Ok syms ->
     outcome (run_backtest syms "2023-01-01" "2024-12-31" 0.01%float)
       = Raise x ->
     main <> 0) /\
  (forall syms rd,
     read_symbols = Ok syms ->
     outcome (run_backtest syms "2023-01-01" "2024-12-31" 0.01%float)
       = Ok rd ->
     emit rd = Ok tt ->
     main = 0).
Proof.
  split; [|split].
  - intros syms s e r x H c. apply attempt_raises in H.
    subst c. unfold Runner.run_backtest. now rewrite H.
  - intros syms x Hs Ho. unfold Runner.main. rewrite Hs, Ho. discriminate.
  - intros syms rd Hs Ho He. unfold Runner.main. rewrite Hs, Ho. simpl.
    now rewrite He.
Qed.

End Script.

(** The theorem at work: the reduction of [idle_run] raises on the
    win-rate guard, the message lands in [error], and the script fails. *)
Lemma failure_recorded_and_fatal_witness :
  let c := run_backtest no_attr idle_simulation ["SPY"]
             "2023-01-01" "2024-12-31" 0.01%float in
  error (results_data c) =
    Some "'>' not supported between instances of 'NoneType' and 'int'" /\
  main no_attr idle_simulation (Ok ["SPY"]) written <> 0.
Proof.
  pose proof (failure_recorded_and_fatal no_attr idle_simulation
                (Ok ["SPY"]) written) as (Hrec & Hfail & _).
  split.
  - refine (proj1 (Hrec ["SPY"] "2023-01-01" "2024-12-31" 0.01%float
                     (not_supported ">" VNone (VInt 0)) _)).
    right. exists idle_run. split; reflexivity.
  - apply (Hfail ["SPY"] (not_supported ">" VNone (VInt 0)));
      reflexivity.
Defined.

End RunnerSpec.

(* ===================================================================== *)
(** ** Properties of the signal policy *)
(* ===================================================================== *)

Module AgentSpec.
Import Py Agent Scenario PySpec.
Local Open Scope py_scope.

(** *** Order on floats *)

Lemma SFcompare_swap (a b : spec_float) :
  SFcompare b a = option_map CompOpp (SFcompare a b).
Proof.
  destruct a as [s1|s1| |s1 m1 e1], b as [s2|s2| |s2 m2 e2]; simpl;
    trivial; try (destruct s1; reflexivity); try (destruct s2; reflexivity);
    try (destruct s1, s2; reflexivity).
  f_equal. change (Pos.compare_cont Eq m2 m1) with (m2 ?= m1)%positive.
  change (Pos.compare_cont Eq m1 m2) with (m1 ?= m2)%positive.
  rewrite (Z.compare_antisym e1 e2), (Pos.compare_antisym m1 m2).
  destruct s1, s2; trivial;
    destruct (e1 ?= e2); simpl; trivial;
    destruct (m1 ?= m2)%positive; reflexivity.
Qed.

(** [conf <= threshold] excludes [conf > threshold]. *)
Lemma leb_not_gt (x y : float) :
  (x <=? y)%float = true -> (y <? x)%float = false.
Proof.
  rewrite FloatAxioms.leb_spec, FloatAxioms.ltb_spec.
  unfold SFleb, SFltb. rewrite (SFcompare_swap (Prim2SF x) (Prim2SF y)).
  destruct (SFcompare (Prim2SF x) (Prim2SF y)) as [[]|]; simpl; congruence.
Qed.

(** *** Slices, indexing and comprehensions *)

(** With [0 < n <= len(l)], [l[-n:]] is the last [n] elements. *)
Lemma slice_from_last {A} (l : list A) (n : Z) :
  0 < n <= Z.of_nat (length l) ->
  slice_from l (- n) = drop (length l - Z.to_nat n) l.
Proof.
  intros Hn. unfold slice_from.
  destruct (Z.ltb_spec (- n) 0); [|lia].
  f_equal. lia.
Qed.

Lemma getitem_lookup {A} (l : list A) (i : nat) (x : A) :
  l !! i = Some x -> getitem l (Z.of_nat i) = Ok x.
Proof.
  intros H. unfold getitem.
  destruct (Z.ltb_spec (Z.of_nat i) 0); [lia|].
  destruct (Z.ltb_spec (Z.of_nat i) 0); [lia|].
  now rewrite Nat2Z.id, H.
Qed.

Lemma comprehension_Forall2 {A B} (f : A -> result B) l ys :
  comprehension f l = Ok ys -> Forall2 (fun x y => f x = Ok y) l ys.
Proof.
  revert ys. induction l as [|x l IH]; simpl; intros ys.
  - intros [= <-]. constructor.
  - destruct (f x) as [y|] eqn:Hx; [|discriminate]. simpl.
    destruct (comprehension f l) as [ys'|]; [|discriminate]. simpl.
    intros [= <-]. constructor; auto.
Qed.

Lemma comprehension_defined {A B} (f : A -> result B) l :
  (forall x, In x l -> exists y, f x = Ok y) ->
  exists ys, comprehension f l = Ok ys.
Proof.
  induction l as [|x l IH]; intros H; simpl; [eauto|].
  destruct (H x) as [y Hy]; [now left|]. rewrite Hy. simpl.
  destruct IH as [ys Hys]; [intros x' Hx'; apply H; now right|].
  rewrite Hys. simpl. eauto.
Qed.

Lemma simple_return_first recent : simple_return recent 0 = Ok 0%float.
Proof. reflexivity. Qed.

Lemma simple_return_later recent i c p :
  recent !! S i = Some c -> recent !! i = Some p ->
  (p =? 0)%float = false ->
  simple_return recent (S i) = Ok (c / p - 1)%float.
Proof.
  intros Hc Hp Hz. unfold simple_return.
  destruct (Z.ltb_spec 0 (Z.of_nat (S i))); [|lia].
  rewrite (getitem_lookup _ _ _ Hc). cbn [bind].
  replace (Z.of_nat (S i) - 1) with (Z.of_nat i) by lia.
  rewrite (getitem_lookup _ _ _ Hp). cbn [bind].
  unfold float_truediv. now rewrite Hz.
Qed.

(** *** Events *)

Lemma events_of_app i (l1 l2 : list event) :
  events_of i (l1 ++ l2) = events_of i l1 ++ events_of i l2.
Proof. apply List.filter_app. Qed.

Lemma intents_app (l1 l2 : list event) :
  intents (l1 ++ l2) = intents l1 ++ intents l2.
Proof. apply List.filter_app. Qed.

Section Policy.

Variable classify : string -> result (Z * float).
Variable params : Params.

Local Abbreviation feature_text := (feature_text params).
Local Abbreviation share_count := (share_count params).
Local Abbreviation decide := (decide params).
Local Abbreviation body := (body classify params).
Local Abbreviation loop := (loop classify params).
Local Abbreviation next := (next classify params).
Local Abbreviation run := (run classify params).

(** **** The decision *)

Lemma decide_events b i d pred conf sz ev :
  In ev (emitted (decide b i d pred conf sz)) ->
  feed_of ev = Some i \/ feed_of ev = None.
Proof.
  unfold Agent.decide.
  repeat match goal with
         | |- context [if ?c then _ else _] => destruct c
         | |- context [match ?c with _ => _ end] => destruct c
         end; simpl; intuition (subst; simpl; auto).
Qed.

Lemma decide_below_threshold b i d pred conf sz :
  (threshold params <? conf)%float = false ->
  decide b i d pred conf sz = Out sz [] None.
Proof.
  intros H. unfold Agent.decide. rewrite H.
  now rewrite !andb_false_r.
Qed.

(** **** One iteration *)

Lemma body_data b i d fr : fst (final (body b i d fr)) = appended b i d.
Proof.
  unfold Agent.body, appended.
  destruct (_ <? _); trivial.
  destruct (Agent.feature_text _ _); trivial.
  now destruct (classify _) as [[pred conf]|e].
Qed.

Lemma body_short b i d fr :
  Z.of_nat (length (lookback d)) + 1 < seq_length params ->
  body b i d fr = Out (appended b i d, fr) [] None.
Proof.
  intros H. unfold Agent.body. cbn [appended lookback].
  rewrite length_app. cbn [length].
  destruct (Z.ltb_spec (Z.of_nat (length (lookback d) + 1))
              (seq_length params)); [reflexivity|lia].
Qed.

Lemma body_events b i d fr ev :
  In ev (emitted (body b i d fr)) ->
  feed_of ev = Some i \/ feed_of ev = None.
Proof.
  unfold Agent.body.
  destruct (_ <? _); [intros []|].
  destruct (Agent.feature_text _ _); [|intros []].
  destruct (classify _) as [[pred conf]|e]; cbn [emitted].
  - intros [<-|H]; [now left|]. eapply decide_events, H.
  - intros [<-|[]]. now left.
Qed.

Lemma events_of_none j (l : list event) :
  (forall ev, In ev l -> feed_of ev <> Some j) -> events_of j l = [].
Proof.
  induction l as [|ev l IH]; trivial. intros H. simpl.
  rewrite IH by (intros ev' Hin; apply H; now right).
  unfold about. specialize (H ev (or_introl eq_refl)).
  destruct (feed_of ev) as [k|]; trivial.
  destruct (Nat.eqb_spec j k); congruence.
Qed.

Lemma body_events_other b i d fr j :
  j <> i -> events_of j (emitted (body b i d fr)) = [].
Proof.
  intros Hj. apply events_of_none. intros ev Hin.
  destruct (body_events _ _ _ _ _ Hin) as [H|H]; rewrite H; congruence.
Qed.

(** **** The loop over the feeds *)

Lemma loop_events b i ds fr ev :
  In ev (emitted (loop b i ds fr)) ->
  feed_of ev = None \/
  exists k, feed_of ev = Some (i + k)%nat /\ (k < length ds)%nat.
Proof.
  revert i fr. induction ds as [|d ds IH]; intros i fr; [intros []|].
  cbn [Agent.loop].
  destruct (raised (body b i d fr)) eqn:Hr; cbn [emitted].
  - intros Hin. destruct (body_events _ _ _ _ _ Hin) as [H|H]; auto.
    right. exists 0%nat. rewrite Nat.add_0_r. simpl. split; [trivial|lia].
  - rewrite in_app_iff. intros [Hin|Hin].
    + destruct (body_events _ _ _ _ _ Hin) as [H|H]; auto.
      right. exists 0%nat. rewrite Nat.add_0_r. simpl. split; [trivial|lia].
    + destruct (IH _ _ Hin) as [H|(k & H & Hk)]; auto.
      right. exists (S k). rewrite Nat.add_succ_r. simpl.
      split; [trivial|lia].
Qed.

Lemma loop_events_below b i ds fr j :
  (j < i)%nat -> events_of j (emitted (loop b i ds fr)) = [].
Proof.
  intros Hj. apply events_of_none. intros ev Hin.
  destruct (loop_events _ _ _ _ _ Hin) as [H|(k & H & _)]; rewrite H;
    [congruence|]. intros [= E]. lia.
Qed.

(** The events about the feed at position [k] are those of its own
    iteration, if the loop gets that far. *)
Lemma loop_at b i ds fr k d :
  ds !! k = Some d ->
  events_of (i + k) (emitted (loop b i ds fr)) = [] \/
  exists fr',
    events_of (i + k) (emitted (loop b i ds fr)) =
    events_of (i + k) (emitted (body b (i + k) d fr')).
Proof.
  revert i fr k. induction ds as [|d0 ds IH]; intros i fr k; [easy|].
  cbn [Agent.loop]. destruct k as [|k]; simpl.
  - intros [= ->]. rewrite Nat.add_0_r. right. exists fr.
    destruct (raised (body b i d fr)); cbn [emitted]; trivial.
    rewrite events_of_app, loop_events_below by lia.
    now rewrite app_nil_r.
  - intros Hk. rewrite Nat.add_succ_r.
    destruct (raised (body b i d0 fr)); cbn [emitted].
    + left. apply body_events_other. lia.
    + rewrite events_of_app, body_events_other by lia. simpl.
      apply (IH (S i)), Hk.
Qed.

(** When the loop completes, every feed has had its iteration. *)
Lemma loop_at_complete b i ds fr k d :
  raised (loop b i ds fr) = None ->
  ds !! k = Some d ->
  exists fr' pre post,
    emitted (loop b i ds fr) =
      pre ++ emitted (body b (i + k) d fr') ++ post /\
    events_of (i + k) pre = [] /\ events_of (i + k) post = [] /\
    raised (body b (i + k) d fr') = None.
Proof.
  revert i fr k. induction ds as [|d0 ds IH]; intros i fr k; [easy|].
  cbn [Agent.loop]. destruct k as [|k]; simpl.
  - intros Hr [= ->]. rewrite Nat.add_0_r.
    destruct (raised (body b i d fr)) eqn:Hb; [discriminate|].
    cbn [emitted raised] in *.
    exists fr, [], (emitted (loop b (S i) ds (snd (final (body b i d fr))))).
    repeat split; trivial. apply loop_events_below. lia.
  - intros Hr Hk. rewrite Nat.add_succ_r.
    destruct (raised (body b i d0 fr)) eqn:Hb; [discriminate|].
    cbn [emitted raised] in *.
    destruct (IH (S i) _ k Hr Hk) as (fr' & pre & post & E & H1 & H2 & H3).
    exists fr', (emitted (body b i d0 fr) ++ pre), post.
    simpl in *. rewrite E, <- app_assoc. repeat split; trivial.
    rewrite events_of_app, body_events_other by lia. apply H1.
Qed.

Lemma loop_datas b i ds fr :
  raised (loop b i ds fr) = None ->
  fst (final (loop b i ds fr)) = imap (fun k => appended b (i + k)) ds.
Proof.
  revert i fr. induction ds as [|d ds IH]; intros i fr; trivial.
  cbn [Agent.loop].
  destruct (raised (body b i d fr)) eqn:Hb; [discriminate|].
  cbn [final raised fst]. intros Hr.
  rewrite body_data, (IH _ _ Hr). cbn [imap]. rewrite Nat.add_0_r.
  f_equal. apply imap_ext. intros k x _. simpl.
  now rewrite Nat.add_succ_r.
Qed.

(** **** A bar, and a run *)

Lemma next_emitted ag b :
  emitted (next ag b) =
  emitted (loop b 0 (datas ag) (Frame None (model_signals ag))).
Proof. reflexivity. Qed.

Lemma next_datas ag b i d :
  raised (next ag b) = None ->
  datas ag !! i = Some d ->
  datas (final (next ag b)) !! i = Some (appended b i d).
Proof.
  unfold Agent.next. cbn [raised final datas]. intros Hr Hd.
  rewrite (loop_datas _ _ _ _ Hr), list_lookup_imap, Hd. reflexivity.
Qed.

Lemma next_datas_length ag b :
  raised (next ag b) = None ->
  length (datas (final (next ag b))) = length (datas ag).
Proof.
  unfold Agent.next. cbn [raised final datas]. intros Hr.
  now rewrite (loop_datas _ _ _ _ Hr), length_imap.
Qed.

Lemma next_events_feed ag b ev i :
  In ev (emitted (next ag b)) -> feed_of ev = Some i ->
  exists d, datas ag !! i = Some d.
Proof.
  rewrite next_emitted. intros Hin Hi.
  destruct (loop_events _ _ _ _ _ Hin) as [H|(k & H & Hk)]; [congruence|].
  rewrite Hi in H. injection H as ->. simpl.
  apply lookup_lt_is_Some_2, Hk.
Qed.

Lemma next_short ag b i d :
  datas ag !! i = Some d ->
  Z.of_nat (length (lookback d)) + 1 < seq_length params ->
  events_of i (emitted (next ag b)) = [].
Proof.
  intros Hd Hlen. rewrite next_emitted.
  destruct (loop_at b 0 _ (Frame None (model_signals ag)) _ _ Hd)
    as [H|(fr' & H)]; simpl in H; trivial.
  rewrite H, body_short; trivial.
Qed.

Lemma events_of_in i ev (l : list event) :
  In ev l -> feed_of ev = Some i -> In ev (events_of i l).
Proof.
  intros Hin Hi. apply List.filter_In. split; trivial.
  unfold about. rewrite Hi. apply Nat.eqb_refl.
Qed.

Lemma trace_cons ag b bars :
  trace classify params ag (b :: bars) =
  emitted (next ag b) ::
  match raised (next ag b) with
  | Some _ => []
  | None => trace classify params (final (next ag b)) bars
  end.
Proof.
  unfold trace. cbn [Agent.run].
  destruct (raised (next ag b)); trivial.
  now destruct (Agent.run _ _ _ _) as [[ag' tr] r].
Qed.

(** C6. A feed whose buffer, after the append of the current close, is
    shorter than [seq_length] gets no inference and no order intent on that
    bar. Over a run: an inference or an order intent for a feed appears on
    the bar of index [t] only if the buffer, which then has its initial
    entries and [t + 1] more, has reached [seq_length]. *)
Theorem no_signal_before_seq_length :
  (forall ag b i d,
     datas ag !! i = Some d ->
     Z.of_nat (length (lookback d)) + 1 < seq_length params ->
     events_of i (emitted (next ag b)) = []) /\
  (forall bars ag t evs ev i,
     trace classify params ag bars !! t = Some evs ->
     In ev evs -> feed_of ev = Some i ->
     exists d, datas ag !! i = Some d /\
       seq_length params <=
       Z.of_nat (length (lookback d)) + Z.of_nat t + 1).
Proof.
  split; [exact next_short|].
  induction bars as [|b bars IH]; intros ag t evs ev i; [easy|].
  rewrite trace_cons. remember (next ag b) as o eqn:Ho.
  destruct t as [|t]; simpl; subst o.
  - intros [= <-] Hin Hi.
    destruct (next_events_feed _ _ _ _ Hin Hi) as [d Hd].
    exists d. split; trivial.
    destruct (Z.lt_ge_cases (Z.of_nat (length (lookback d)) + 1)
                (seq_length params)) as [Hlt|]; [|lia].
    pose proof (events_of_in _ _ _ Hin Hi) as Hin'.
    pose proof (next_short ag b i d Hd Hlt) as Hs.
    rewrite next_emitted in Hs. rewrite Hs in Hin'. destruct Hin'.
  - destruct (raised (next ag b)) eqn:Hr; [easy|].
    intros Ht Hin Hi.
    destruct (IH _ _ _ _ _ Ht Hin Hi) as (d' & Hd' & Hlen).
    assert (Hlt : (i < length (datas ag))%nat).
    { rewrite <- (next_datas_length _ _ Hr).
      apply lookup_lt_is_Some_1; eauto. }
    apply lookup_lt_is_Some_2 in Hlt. destruct Hlt as [d Hd].
    rewrite (next_datas _ _ _ _ Hr Hd) in Hd'. injection Hd' as <-.
    exists d. split; trivial.
    cbn [appended lookback] in Hlen. rewrite length_app in Hlen.
    simpl in Hlen. lia.
Qed.

(** **** Below the threshold *)

Lemma body_no_intent b i d fr :
  (forall text pred conf,
     In (Infer i text) (emitted (body b i d fr)) ->
     classify text = Ok (pred, conf) ->
     (conf <=? threshold params)%float = true) ->
  intents (emitted (body b i d fr)) = [].
Proof.
  unfold Agent.body.
  destruct (_ <? _); trivial.
  destruct (Agent.feature_text _ _) as [text|]; trivial.
  destruct (classify text) as [[pred conf]|e] eqn:Hc; cbn [emitted];
    [|reflexivity].
  intros H. specialize (H text pred conf (or_introl eq_refl) Hc).
  now rewrite decide_below_threshold by now apply leb_not_gt.
Qed.

Lemma loop_no_intent b i ds fr :
  (forall j text pred conf,
     In (Infer j text) (emitted (loop b i ds fr)) ->
     classify text = Ok (pred, conf) ->
     (conf <=? threshold params)%float = true) ->
  intents (emitted (loop b i ds fr)) = [].
Proof.
  revert i fr. induction ds as [|d ds IH]; intros i fr; trivial.
  cbn [Agent.loop].
  destruct (raised (body b i d fr)); cbn [emitted]; intros H.
  - apply body_no_intent. intros text. apply H.
  - rewrite intents_app, body_no_intent, IH; trivial.
    + intros j text pred conf Hin. apply (H j). apply in_or_app. now right.
    + intros text pred conf Hin. apply (H i). apply in_or_app. now left.
Qed.

(** C8. If on every bar of the run, for every feed the classifier is
    consulted on, its confidence is at most the threshold, then no order
    intent is issued over the whole run, whatever the predicted classes. *)
Theorem no_intent_at_or_below_threshold (ag : agent) (bars : list bar) :
  (forall evs i text pred conf,
     In evs (trace classify params ag bars) ->
     In (Infer i text) evs ->
     classify text = Ok (pred, conf) ->
     (conf <=? threshold params)%float = true) ->
  intents (concat (trace classify params ag bars)) = [].
Proof.
  revert ag. induction bars as [|b bars IH]; intros ag; trivial.
  rewrite trace_cons. cbn [concat]. intros H.
  rewrite intents_app, next_emitted, loop_no_intent.
  - destruct (raised (next ag b)); [reflexivity|]. apply IH.
    intros evs i text pred conf Hin. apply H. now right.
  - intros j text pred conf. rewrite <- next_emitted. apply H. now left.
Qed.

(** **** The two branches *)

Lemma body_long b i d fr text pred conf :
  seq_length params <= Z.of_nat (length (lookback d)) + 1 ->
  feature_text (lookback d ++ [close0 b i]) = Ok text ->
  classify text = Ok (pred, conf) ->
  let o := decide b i (appended b i d) pred conf (size_local fr) in
  body b i d fr =
  Out (appended b i d, Frame (final o) (<[i := pred]> (signals fr)))
      (Infer i text :: emitted o) (raised o).
Proof.
  intros Hlen Ht Hc o. unfold Agent.body. cbn [appended lookback].
  rewrite length_app. cbn [length].
  destruct (Z.ltb_spec (Z.of_nat (length (lookback d) + 1))
              (seq_length params)); [lia|].
  now rewrite Ht, Hc.
Qed.

Lemma decide_up b i d conf sz s :
  getposition b i = 0 ->
  (threshold params <? conf)%float = true ->
  share_count b i = Ok s ->
  decide b i d 2 conf sz =
  Out (Some s)
      (if 0 <? s
       then [Close i; Print (notice "BUY" d (close0 b i) conf)] else [])
      None.
Proof.
  intros Hp Hc Hs. unfold Agent.decide. rewrite Hp, Hc, Hs. simpl.
  now destruct (0 <? s).
Qed.

Lemma decide_down b i d conf sz :
  getposition b i <> 0 ->
  (threshold params <? conf)%float = true ->
  decide b i d 0 conf sz =
  match sz with
  | None => Out sz [] (Some (unbound_local "size"))
  | Some s =>
      Out sz [Buy i s; Print (notice "SELL" d (close0 b i) conf)] None
  end.
Proof.
  intros Hp Hc. unfold Agent.decide. rewrite Hc.
  apply Z.eqb_neq in Hp. now rewrite Hp.
Qed.

Lemma about_refl i text : about i (Infer i text) = true.
Proof. unfold about. simpl. apply Nat.eqb_refl. Qed.

(** C1, as the code has it. On a bar that [next] completes, for a feed
    whose buffer has reached [seq_length]: if the feed has no open
    position, the predicted class is up (2), the confidence exceeds the
    threshold and the share count [int(cash * position_size / close)] is
    positive, then a close intent is issued on the feed and the BUY notice
    is printed; the inference and that close are all that concerns the
    feed on this bar. *)
Theorem close_intent_on_up_signal
    (ag : agent) (b : bar) (i : nat) (d : data) (text : string)
    (conf : float) (s : Z) :
  datas ag !! i = Some d ->
  seq_length params <= Z.of_nat (length (lookback d)) + 1 ->
  raised (next ag b) = None ->
  feature_text (lookback d ++ [close0 b i]) = Ok text ->
  classify text = Ok (2, conf) ->
  getposition b i = 0 ->
  (threshold params <? conf)%float = true ->
  share_count b i = Ok s ->
  0 < s ->
  events_of i (emitted (next ag b)) = [Infer i text; Close i] /\
  In (Print (notice "BUY" (appended b i d) (close0 b i) conf))
     (emitted (next ag b)).
Proof.
  intros Hd Hlen Hr Ht Hc Hp Hconf Hs Hpos.
  destruct (loop_at_complete b 0 _ _ _ _ Hr Hd)
    as (fr' & pre & post & E & Hpre & Hpost & _).
  rewrite next_emitted, E. cbn [Nat.add] in *.
  rewrite (body_long _ _ _ _ _ _ _ Hlen Ht Hc).
  rewrite (decide_up _ _ _ _ _ _ Hp Hconf Hs).
  apply Z.ltb_lt in Hpos. rewrite Hpos. cbn [emitted]. split.
  - rewrite !events_of_app, Hpre, Hpost. cbn [app].
    unfold events_of. cbn [List.filter].
    rewrite about_refl. unfold about at 1 2. cbn [feed_of].
    now rewrite Nat.eqb_refl.
  - rewrite !in_app_iff. right. left. simpl. auto.
Qed.

(** **** The feature text *)

(** C7, as the code has it. When the buffer holds at least [seq_length]
    closes and [seq_length] is positive, the window is exactly the last
    [seq_length] of them; where no divisor is zero (no close of the window
    but its last), the returns are [r[0] = 0] and
    [r[i] = close[i] / close[i-1] - 1], one per close of the window, and
    the feature text is their renderings with four decimals, joined by
    single spaces, after the heading. *)
Theorem feature_text_of_recent_returns (lb : list float) :
  0 < seq_length params <= Z.of_nat (length lb) ->
  (forall i p,
     recent_closes params lb !! i = Some p ->
     (S i < length (recent_closes params lb))%nat ->
     (p =? 0)%float = false) ->
  let n := Z.to_nat (seq_length params) in
  let recent := recent_closes params lb in
  recent = drop (length lb - n) lb /\
  length recent = n /\
  exists returns,
    returns_of recent = Ok returns /\
    length returns = n /\
    returns !! 0%nat = Some 0%float /\
    (forall i c p,
       recent !! S i = Some c -> recent !! i = Some p ->
       returns !! S i = Some (c / p - 1)%float) /\
    feature_text lb =
      Ok ("Price movements: " ++
          join " " (List.map (format_f 4) returns))%string /\
    (forall r, In r returns -> PrimFloat.is_finite r = true ->
       exists whole frac,
         format_f 4 r = (whole ++ "." ++ frac)%string /\
         String.length frac = 4%nat).
Proof.
  intros Hn Hnz n recent.
  assert (Hrecent : recent = drop (length lb - n) lb).
  { subst recent n. unfold recent_closes. now apply slice_from_last. }
  assert (Hlen : length recent = n).
  { rewrite Hrecent, length_drop. subst n. lia. }
  split; [trivial|]. split; [trivial|].
  destruct (comprehension_defined (simple_return recent)
              (range (length recent))) as [returns Hret].
  { intros [|i] Hi; [eexists; apply simple_return_first|].
    apply in_seq in Hi.
    destruct (lookup_lt_is_Some_2 recent (S i)) as [c Hc]; [lia|].
    destruct (lookup_lt_is_Some_2 recent i) as [p Hp]; [lia|].
    eexists. eapply simple_return_later; eauto.
    apply (Hnz i p Hp). fold recent. lia. }
  pose proof (comprehension_Forall2 _ _ _ Hret) as HF.
  exists returns. split; [exact Hret|].
  assert (Hlr : length returns = n).
  { rewrite <- (Forall2_length _ _ _ HF). unfold range.
    now rewrite length_seq. }
  split; [trivial|]. split; [|split; [|split]].
  - destruct (lookup_lt_is_Some_2 returns 0) as [r Hr]; [lia|].
    assert (H0 : range (length recent) !! 0%nat = Some 0%nat).
    { unfold range. apply lookup_seq_lt. lia. }
    pose proof (Forall2_lookup_lr _ _ _ _ _ _ HF H0 Hr) as E.
    cbv beta in E. rewrite simple_return_first in E.
    now injection E as <-.
  - intros i c p Hc Hp.
    assert (Hi : (S i < length recent)%nat)
      by (apply lookup_lt_is_Some_1; eauto).
    destruct (lookup_lt_is_Some_2 returns (S i)) as [r Hr]; [lia|].
    assert (HS : range (length recent) !! S i = Some (S i)).
    { unfold range. now apply lookup_seq_lt. }
    pose proof (Forall2_lookup_lr _ _ _ _ _ _ HF HS Hr) as E.
    cbv beta in E.
    rewrite (simple_return_later _ _ _ _ Hc Hp) in E
      by (apply (Hnz i p Hp); fold recent; lia).
    now injection E as <-.
  - change (returns_of recent = Ok returns) in Hret.
    unfold Agent.feature_text.
    change (recent_closes params lb) with recent. now rewrite Hret.
  - intros r _ Hr. now apply format_f_places.
Qed.

(** The first feed of a bar can only find [size] unbound when it takes the
    SELL branch. *)
Lemma sell_on_first_feed_raises ag b d rest text conf :
  datas ag = d :: rest ->
  seq_length params <= Z.of_nat (length (lookback d)) + 1 ->
  feature_text (lookback d ++ [close0 b 0]) = Ok text ->
  classify text = Ok (0, conf) ->
  getposition b 0 <> 0 ->
  (threshold params <? conf)%float = true ->
  raised (next ag b) = Some (unbound_local "size") /\
  emitted (next ag b) = [Infer 0 text].
Proof.
  intros Hd Hlen Ht Hc Hp Hconf. unfold Agent.next. rewrite Hd.
  cbn [Agent.loop].
  rewrite (body_long _ _ _ _ _ _ _ Hlen Ht Hc).
  cbn [size_local]. rewrite (decide_down _ _ _ _ _ Hp Hconf).
  split; reflexivity.
Qed.

End Policy.

(** *** The statements at sample inputs *)

Local Open Scope string_scope.

(** Counterexample to C1 as stated. With the default parameters, 10000 in
    cash and a close of 2000, the feed is flat, its buffer reaches ten
    closes, the class is up and the confidence 0.9 exceeds 0.6; the share
    count is [int(0.75) = 0], and the bar ends without a close intent. *)
Lemma up_signal_without_close :
  let ag := warmed "BRK" (replicate 9 2000%float) in
  let b := quote 10000 2000 0 in
  let o := next (always 2 0.9) default_params ag b in
  datas ag !! 0%nat = Some (Data "BRK" (replicate 9 2000%float)) /\
  seq_length default_params <=
    Z.of_nat (length (replicate 9 2000%float)) + 1 /\
  getposition b 0 = 0 /\
  feature_text default_params (replicate 9 2000%float ++ [close0 b 0])
    = Ok flat_text /\
  always 2 0.9 flat_text = Ok (2, 0.9%float) /\
  (threshold default_params <? 0.9)%float = true /\
  share_count default_params b 0 = Ok 0 /\
  raised o = None /\
  emitted o = [Infer 0 flat_text] /\
  ~ In (Close 0) (emitted o).
Proof.
  repeat split; try reflexivity.
  intros [H|[]]. discriminate.
Qed.

(** At a close of 100 the share count is fifteen and the close intent is
    issued. *)
Lemma close_intent_on_up_signal_witness :
  let ag := warmed "SPY" (replicate 9 100%float) in
  let b := quote 10000 100 0 in
  let o := next (always 2 0.9) default_params ag b in
  events_of 0 (emitted o) = [Infer 0 flat_text; Close 0] /\
  In (Print "BUY SPY at 100.00, confidence: 0.90") (emitted o).
Proof.
  apply (close_intent_on_up_signal (always 2 0.9) default_params
           (warmed "SPY" (replicate 9 100%float)) (quote 10000 100 0)
           0 (Data "SPY" (replicate 9 100%float)) flat_text 0.9%float 15);
    reflexivity.
Defined.

(** C2 (where the code departs from it). [size] is a local variable of one
    call of [next], bound only in the BUY branch. (1) When the first feed
    of a bar holds a position and the class is down above the threshold,
    reading [size] raises [UnboundLocalError] and nothing is ordered.
    (2) So for a single feed with the default parameters. (3) The same
    after the BUY branch bound [size] for that feed on the previous bar:
    the binding did not survive the call. (4) Two feeds on one bar: the
    second buys with the share count computed from the cash and the close
    of the first. *)
Theorem sell_branch_reads_unbound_size :
  (forall classify params ag b d rest text conf,
     datas ag = d :: rest ->
     seq_length params <= Z.of_nat (length (lookback d)) + 1 ->
     feature_text params (lookback d ++ [close0 b 0]) = Ok text ->
     classify text = Ok (0, conf) ->
     getposition b 0 <> 0 ->
     (threshold params <? conf)%float = true ->
     raised (next classify params ag b) = Some (unbound_local "size") /\
     intents (emitted (next classify params ag b)) = []) /\
  (let o := next (always 0 0.9) default_params
              (warmed "SPY" (replicate 9 100%float)) (quote 10000 100 5) in
   raised o = Some (unbound_local "size") /\
   emitted o = [Infer 0 flat_text]) /\
  (let r := run up_when_flat short_window (init ["SPY"])
              [quote 10000 100 0; quote 10000 100 0; quote 10000 100 0;
               quote 10000 101 15] in
   snd r = Some (unbound_local "size") /\
   intents (concat (snd (fst r))) = [Close 0]) /\
  (let o := next up_when_flat short_window pair pair_bar in
   raised o = None /\
   intents (emitted o) = [Close 0; Buy 1 15]).
Proof.
  split; [|repeat split; reflexivity].
  intros classify params ag b d rest text conf Hd Hlen Ht Hc Hp Hconf.
  destruct (sell_on_first_feed_raises classify params ag b d rest text conf
              Hd Hlen Ht Hc Hp Hconf) as [Hr He].
  split; [exact Hr|]. now rewrite He.
Qed.

(** Counterexample to C7 as stated. (1) With a window length of 0 a
    buffer of three closes has at least [seq_length] entries, but the
    window [lookback[-0:]] is the whole buffer: three closes and three
    returns go into the text, not the most recent zero. (2) With a window
    of three, the buffer [100, 0, 102] has its three entries, but the
    second return divides by the zero close: [ZeroDivisionError], no
    returns and no text. *)
Lemma feature_text_needs_window_and_divisors :
  (let lb := [98; 99; 100]%float in
   seq_length no_window <= Z.of_nat (length lb) /\
   recent_closes no_window lb = lb /\
   length (recent_closes no_window lb)
     <> Z.to_nat (seq_length no_window) /\
   feature_text no_window lb
     = Ok "Price movements: 0.0000 0.0102 0.0101") /\
  (let lb := [100; 0; 102]%float in
   seq_length short_window <= Z.of_nat (length lb) /\
   recent_closes short_window lb = lb /\
   returns_of (recent_closes short_window lb)
     = Raise float_division_by_zero /\
   forall text, feature_text short_window lb <> Ok text).
Proof.
  split; cbv zeta.
  - split; [vm_compute; discriminate|]. split; [reflexivity|].
    split; [vm_compute; lia|reflexivity].
  - split; [vm_compute; discriminate|]. split; [reflexivity|].
    split; [reflexivity|]. intros text. vm_compute. discriminate.
Qed.

(** A window of three closes out of four. *)
Lemma feature_text_of_recent_returns_witness :
  let lb := [100; 101; 102; 104]%float in
  let recent := recent_closes short_window lb in
  recent = drop (length lb - 3) lb /\
  length recent = 3%nat /\
  exists returns,
    returns_of recent = Ok returns /\
    length returns = 3%nat /\
    returns !! 0%nat = Some 0%float /\
    (forall i c p,
       recent !! S i = Some c -> recent !! i = Some p ->
       returns !! S i = Some (c / p - 1)%float) /\
    feature_text short_window lb =
      Ok ("Price movements: " ++
          join " " (List.map (format_f 4) returns)) /\
    (forall r, In r returns -> PrimFloat.is_finite r = true ->
       exists whole frac,
         format_f 4 r = whole ++ "." ++ frac /\
         String.length frac = 4%nat).
Proof.
  apply (feature_text_of_recent_returns short_window
           [100; 101; 102; 104]%float).
  - simpl. lia.
  - intros [|[|[|i]]] p; simpl; intros [= <-] _; reflexivity.
Defined.

(** On its first bar a feed has one close of the ten it needs; on the
    tenth bar of a run the buffer has just reached them. *)
Lemma no_signal_before_seq_length_witness :
  events_of 0
    (emitted (next (always 2 0.9) default_params (init ["SPY"])
                (quote 10000 100 0))) = [] /\
  exists d, datas (init ["SPY"]) !! 0%nat = Some d /\
    seq_length default_params <=
    Z.of_nat (length (lookback d)) + Z.of_nat 9 + 1.
Proof.
  destruct (no_signal_before_seq_length (always 2 0.9) default_params)
    as [Hbar Hrun].
  split.
  - apply (Hbar _ _ _ (Data "SPY" [])); reflexivity.
  - apply (Hrun (replicate 10 (quote 10000 100 0)) (init ["SPY"]) 9%nat
             [Infer 0 flat_text; Close 0;
              Print "BUY SPY at 100.00, confidence: 0.90"]
             (Close 0) 0%nat).
    + reflexivity.
    + simpl. auto.
    + reflexivity.
Defined.

Example feature_text_sample :
  feature_text short_window [100; 101; 102; 104]%float =
  Ok "Price movements: 0.0000 0.0099 0.0196".
Proof. reflexivity. Qed.

(** Twelve bars with a confidence of one half: the model is consulted
    from the tenth bar on, and nothing is ordered. *)
Lemma no_intent_at_or_below_threshold_witness :
  intents
    (concat (trace (always 2 0.5) default_params (init ["SPY"])
               (replicate 12 (quote 10000 100 0)))) = [].
Proof.
  apply (no_intent_at_or_below_threshold (always 2 0.5) default_params).
  intros evs i text pred conf _ _ [= <- <-]. reflexivity.
Defined.

End AgentSpec.

(* ===================================================================== *)
(** ** More on the signal policy: buffers, signals, orders, failures *)
(* ===================================================================== *)

Module AgentMore.
Import Py Agent AgentTerms Scenario PySpec AgentSpec.
Local Open Scope py_scope.

(** *** Failures of the arithmetic *)

Lemma comprehension_raise {A B} (f : A -> result B) l e :
  comprehension f l = Raise e -> exists x, In x l /\ f x = Raise e.
Proof.
  induction l as [|x l IH]; simpl; [discriminate|].
  destruct (f x) as [y|e'] eqn:Hx; simpl.
  - destruct (comprehension f l) as [ys|e'']; simpl; [discriminate|].
    intros [= <-]. destruct IH as (x' & Hin & Hx'); eauto.
  - intros [= <-]. eauto.
Qed.

Lemma float_truediv_raise a b e :
  float_truediv a b = Raise e -> e = float_division_by_zero.
Proof.
  unfold float_truediv. destruct (b =? 0)%float; congruence.
Qed.

(** Inside [range(len(recent))] the two reads of the comprehension are in
    range: only the division can raise. *)
Lemma simple_return_raise recent i e :
  (i < length recent)%nat ->
  simple_return recent i = Raise e -> e = float_division_by_zero.
Proof.
  intros Hi. destruct i as [|i]; [discriminate|].
  destruct (lookup_lt_is_Some_2 recent (S i)) as [c Hc]; [lia|].
  destruct (lookup_lt_is_Some_2 recent i) as [p Hp]; [lia|].
  unfold simple_return.
  destruct (Z.ltb_spec 0 (Z.of_nat (S i))); [|lia].
  rewrite (getitem_lookup _ _ _ Hc). cbn [bind].
  replace (Z.of_nat (S i) - 1) with (Z.of_nat i) by lia.
  rewrite (getitem_lookup _ _ _ Hp). cbn [bind].
  destruct (float_truediv c p) as [q|e'] eqn:Hq; simpl; [discriminate|].
  intros [= <-]. eapply float_truediv_raise, Hq.
Qed.

Lemma returns_of_raise recent e :
  returns_of recent = Raise e -> e = float_division_by_zero.
Proof.
  unfold returns_of. intros H.
  destruct (comprehension_raise _ _ _ H) as (i & Hin & Hi).
  apply in_seq in Hin. eapply simple_return_raise; [|exact Hi]. lia.
Qed.

Section Policy.

Variable classify : string -> result (Z * float).
Variable params : Params.

Local Abbreviation feature_text := (feature_text params).
Local Abbreviation share_count := (share_count params).
Local Abbreviation decide := (decide params).
Local Abbreviation body := (body classify params).
Local Abbreviation loop := (loop classify params).
Local Abbreviation next := (next classify params).
Local Abbreviation run := (run classify params).
Local Abbreviation trace := (trace classify params).
Local Abbreviation decided := (decided params).
Local Abbreviation size_from_earlier := (size_from_earlier params).
Local Abbreviation signalled := (signalled classify params).
Local Abbreviation justified := (justified classify params).
Local Abbreviation signals_upto := (signals_upto classify params).
Local Abbreviation failure := (failure classify params).

Lemma feature_text_raise lb e :
  feature_text lb = Raise e -> e = float_division_by_zero.
Proof.
  unfold Agent.feature_text.
  destruct (returns_of _) as [rs|e'] eqn:H; simpl; [discriminate|].
  intros [= <-]. eapply returns_of_raise, H.
Qed.

Lemma share_count_raise b i e :
  share_count b i = Raise e ->
  e = float_division_by_zero \/ e = nan_to_integer \/
  e = infinity_to_integer.
Proof.
  unfold Agent.share_count.
  destruct (float_truediv _ _) as [q|e'] eqn:Hq; simpl.
  - unfold int_of_float. destruct (Prim2SF q); intros [= <-]; auto.
  - intros [= <-]. left. eapply float_truediv_raise, Hq.
Qed.

(** *** What one decision can do *)

Lemma decide_decided b i d pred conf sz :
  decided b i d pred conf sz (decide b i d pred conf sz).
Proof.
  unfold Agent.decide.
  destruct (getposition b i =? 0) eqn:Hp;
    [apply Z.eqb_eq in Hp|apply Z.eqb_neq in Hp];
    destruct (threshold params <? conf)%float eqn:Hc;
    rewrite ?andb_false_r; simpl; try apply decided_idle.
  - destruct (pred =? 2) eqn:H2; [apply Z.eqb_eq in H2|];
      simpl.
    + destruct (share_count b i) as [s|e] eqn:Hs.
      * destruct (Z.ltb_spec 0 s).
        -- now apply decided_close.
        -- now apply decided_sized.
      * now apply decided_arith.
    + apply decided_idle.
  - destruct (pred =? 0) eqn:H0; [apply Z.eqb_eq in H0|];
      simpl; [|apply decided_idle].
    destruct sz as [s|].
    + now apply decided_buy.
    + now apply decided_unbound.
Qed.

(** *** What one iteration can do *)

Lemma body_cases b i d fr :
  (Z.of_nat (length (lookback d)) + 1 < seq_length params /\
   body b i d fr = Out (appended b i d, fr) [] None) \/
  (seq_length params <= Z.of_nat (length (lookback d)) + 1 /\
   feature_text (lookback d ++ [close0 b i])
     = Raise float_division_by_zero /\
   body b i d fr =
     Out (appended b i d, fr) [] (Some float_division_by_zero)) \/
  (seq_length params <= Z.of_nat (length (lookback d)) + 1 /\
   exists text e,
     feature_text (lookback d ++ [close0 b i]) = Ok text /\
     classify text = Raise e /\
     body b i d fr = Out (appended b i d, fr) [Infer i text] (Some e)) \/
  (seq_length params <= Z.of_nat (length (lookback d)) + 1 /\
   exists text pred conf o,
     feature_text (lookback d ++ [close0 b i]) = Ok text /\
     classify text = Ok (pred, conf) /\
     decided b i (appended b i d) pred conf (size_local fr) o /\
     body b i d fr =
       Out (appended b i d, Frame (final o) (<[i := pred]> (signals fr)))
           (Infer i text :: emitted o) (raised o)).
Proof.
  destruct (Z.lt_ge_cases (Z.of_nat (length (lookback d)) + 1)
              (seq_length params)) as [Hlt|Hge].
  - left. split; [trivial|]. now apply body_short.
  - right. assert (Hge' : seq_length params <=
                          Z.of_nat (length (lookback d)) + 1) by lia.
    assert (Hlong : (Z.of_nat (length (lookback d ++ [close0 b i]))
                     <? seq_length params) = false).
    { rewrite length_app. cbn [length]. apply Z.ltb_ge. lia. }
    destruct (feature_text (lookback d ++ [close0 b i]))
      as [text|e] eqn:Ht.
    + right. destruct (classify text) as [[pred conf]|e] eqn:Hc.
      * right. split; [trivial|].
        exists text, pred, conf,
          (decide b i (appended b i d) pred conf (size_local fr)).
        split; [trivial|]. split; [trivial|].
        split; [apply decide_decided|]. now apply body_long.
      * left. split; [trivial|]. exists text, e.
        split; [trivial|]. split; [trivial|].
        unfold Agent.body. cbn [appended lookback].
        now rewrite Hlong, Ht, Hc.
    + left. split; [trivial|].
      pose proof (feature_text_raise _ _ Ht) as ->. split; [trivial|].
      unfold Agent.body. cbn [appended lookback].
      now rewrite Hlong, Ht.
Qed.

(** *** Invariants of the loop *)

(** A property [P] of the frame kept by every iteration that returns
    holds when the loop completes; what every iteration guarantees of its
    events ([Q]) and of the exception it raises ([R]) holds of the
    loop's. *)
Lemma loop_invariant b (P : nat -> frame -> Prop) (Q : event -> Prop)
    (R : exn -> Prop) ds :
  forall i fr,
    (forall k d fr',
       ds !! k = Some d -> P (i + k)%nat fr' ->
       (raised (body b (i + k) d fr') = None ->
        P (S (i + k)) (snd (final (body b (i + k) d fr')))) /\
       (forall ev, In ev (emitted (body b (i + k) d fr')) -> Q ev) /\
       (forall e, raised (body b (i + k) d fr') = Some e -> R e)) ->
    P i fr ->
    (forall ev, In ev (emitted (loop b i ds fr)) -> Q ev) /\
    (forall e, raised (loop b i ds fr) = Some e -> R e) /\
    (raised (loop b i ds fr) = None ->
     P (i + length ds)%nat (snd (final (loop b i ds fr)))).
Proof.
  induction ds as [|d ds IH]; intros i fr Hstep HP.
  - simpl. rewrite Nat.add_0_r. repeat split; trivial; easy.
  - destruct (Hstep 0%nat d fr eq_refl) as (HP' & HQ & HR);
      [now rewrite Nat.add_0_r|].
    rewrite Nat.add_0_r in HP', HQ, HR.
    cbn [Agent.loop].
    destruct (raised (body b i d fr)) as [e|] eqn:Hr; cbn [emitted raised].
    + split; [exact HQ|]. split; [exact HR|discriminate].
    + destruct (IH (S i) (snd (final (body b i d fr)))) as (IQ & IR & IP);
        [|now apply HP'|].
      { intros k d' fr' Hk. rewrite Nat.add_succ_l, <- Nat.add_succ_r.
        apply (Hstep (S k)). exact Hk. }
      cbn [final snd length].
      rewrite Nat.add_succ_r, <- Nat.add_succ_l.
      repeat split; trivial.
      intros ev Hin. apply in_app_or in Hin. destruct Hin; auto.
Qed.

(** *** Orders and failures of one bar *)

Lemma body_step ag b k d fr :
  datas ag !! k = Some d ->
  size_from_earlier b k fr ->
  size_from_earlier b (S k) (snd (final (body b k d fr))) /\
  (forall ev, In ev (emitted (body b k d fr)) -> justified ag b ev) /\
  (forall e, raised (body b k d fr) = Some e -> failure ag b e).
Proof.
  intros Hd HP.
  assert (Hk : (k < length (datas ag))%nat)
    by (apply lookup_lt_is_Some_1; eauto).
  assert (Hweak : size_from_earlier b (S k) fr).
  { intros s Hs. destruct (HP s Hs) as (j & Hj & H). exists j.
    split; [lia|exact H]. }
  destruct (body_cases b k d fr)
    as [[_ ->]|[(_ & _ & ->)
               |[(Hl & text & e & Ht & Hcl & ->)
                |(Hl & text & pred & conf & o & Ht & Hcl & Ho & ->)]]];
    cbn [final emitted raised snd].
  - repeat split; trivial; [intros ev []|discriminate].
  - repeat split; trivial; [intros ev []|].
    intros e [= <-]. right. now left.
  - repeat split; trivial; [intros ev [<-|[]]; exact I|].
    intros e' [= <-]. left. exists k, d, text. auto.
  - assert (Hsig : (threshold params <? conf)%float = true ->
                   signalled ag b k pred).
    { intros Hc. exists d, text, conf. repeat split; trivial. }
    inversion Ho as [|s Hp H2 Hc Hs Hle|s Hp H2 Hc Hs Hlt|s Hp H0 Hc Hs
                     |e Hp H2 Hc Hs|Hp H0 Hc Hs]; subst;
      cbn [final emitted raised size_local].
    + repeat split; trivial; [|discriminate].
      intros ev [<-|[]]. exact I.
    + repeat split; [|intros ev [<-|[]]; exact I|discriminate].
      intros s' [= <-]. exists k. repeat split; trivial. lia.
    + repeat split; [| |discriminate].
      * intros s' [= <-]. exists k. repeat split; trivial. lia.
      * intros ev [<-|[<-|[<-|[]]]]; simpl; trivial.
        split; [trivial|]. split; [auto|]. eauto.
    + repeat split; trivial; [|discriminate].
      intros ev [<-|[<-|[<-|[]]]]; simpl; trivial.
      split; [trivial|]. split; [auto|]. now apply HP.
    + repeat split; trivial; [intros ev [<-|[]]; exact I|].
      intros e' [= <-].
      destruct (share_count_raise _ _ _ Hs) as [-> | [-> | ->]];
        unfold failure; auto.
    + repeat split; trivial; [intros ev [<-|[]]; exact I|].
      intros e' [= <-]. right. right. right. right. split; [trivial|].
      exists k. split; trivial.
Qed.

Lemma next_sound ag b :
  (forall ev, In ev (emitted (next ag b)) -> justified ag b ev) /\
  (forall e, raised (next ag b) = Some e -> failure ag b e).
Proof.
  destruct (loop_invariant b (size_from_earlier b) (justified ag b)
              (failure ag b) (datas ag) 0
              (Frame None (model_signals ag))) as (HQ & HR & _).
  - intros k d fr' Hk HP. cbn [Nat.add] in *.
    destruct (body_step ag b k d fr' Hk HP) as (H1 & H2 & H3). auto.
  - intros s [=].
  - split; [exact HQ|exact HR].
Qed.

(** X1. A close intent is issued only on a flat feed whose buffer has
    reached [seq_length], when the class predicted on its feature text is
    up (2) with a confidence above the threshold and the share count
    [int(cash * position_size / close)] is positive. *)
Theorem close_only_when_flat (ag : agent) (b : bar) (i : nat) :
  In (Close i) (emitted (next ag b)) ->
  getposition b i = 0 /\
  (exists d text conf,
     datas ag !! i = Some d /\
     seq_length params <= Z.of_nat (length (lookback d)) + 1 /\
     feature_text (lookback d ++ [close0 b i]) = Ok text /\
     classify text = Ok (2, conf) /\
     (threshold params <? conf)%float = true) /\
  exists s, share_count b i = Ok s /\ 0 < s.
Proof. intros H. exact (proj1 (next_sound ag b) _ H). Qed.

(** X2. A buy intent is issued only on a feed that holds a position and
    whose buffer has reached [seq_length], when the class predicted on its
    feature text is down (0) with a confidence above the threshold. Its
    size is the share count computed for an earlier, flat feed of the same
    bar, from that feed's close: never one computed for the feed bought,
    nor one carried over from a previous bar. *)
Theorem buy_sized_by_earlier_feed (ag : agent) (b : bar) (i : nat) (s : Z) :
  In (Buy i s) (emitted (next ag b)) ->
  getposition b i <> 0 /\
  (exists d text conf,
     datas ag !! i = Some d /\
     seq_length params <= Z.of_nat (length (lookback d)) + 1 /\
     feature_text (lookback d ++ [close0 b i]) = Ok text /\
     classify text = Ok (0, conf) /\
     (threshold params <? conf)%float = true) /\
  exists j, (j < i)%nat /\ getposition b j = 0 /\ share_count b j = Ok s.
Proof. intros H. exact (proj1 (next_sound ag b) _ H). Qed.

(** X3. Where an exception that ends [next] comes from. Either the model
    call raised it, on the feature text of a feed whose buffer has reached
    [seq_length]: [next] has no handler around that call. Or it is one of
    four that the lines of [next] raise themselves: [ZeroDivisionError] (a
    zero close), [ValueError] and [OverflowError] ([int()] of a NaN or an
    infinite share count), and [UnboundLocalError] on [size], the latter
    only on a bar where some feed holds a position. The calls into the
    engine (cash, position, close, the two orders) and [print] are taken
    to return, as [bar] has them. *)
Theorem next_failures (ag : agent) (b : bar) (e : exn) :
  raised (next ag b) = Some e ->
  (exists i d text,
     datas ag !! i = Some d /\
     seq_length params <= Z.of_nat (length (lookback d)) + 1 /\
     feature_text (lookback d ++ [close0 b i]) = Ok text /\
     classify text = Raise e) \/
  e = float_division_by_zero \/ e = nan_to_integer \/
  e = infinity_to_integer \/
  (e = unbound_local "size" /\
   exists i, (i < length (datas ag))%nat /\ getposition b i <> 0).
Proof. intros H. exact (proj2 (next_sound ag b) _ H). Qed.

(** *** One order at most *)

Lemma decided_one_intent b i d pred conf sz o :
  decided b i d pred conf sz o -> (length (intents (emitted o)) <= 1)%nat.
Proof. destruct 1; simpl; lia. Qed.

Lemma body_one_intent b i d fr :
  (length (intents (emitted (body b i d fr))) <= 1)%nat.
Proof.
  destruct (body_cases b i d fr)
    as [[_ ->]|[(_ & _ & ->)
               |[(_ & text & e & _ & _ & ->)
                |(_ & text & pred & conf & o & _ & _ & Ho & ->)]]];
    cbn [emitted]; simpl; try lia.
  apply (decided_one_intent _ _ _ _ _ _ _ Ho).
Qed.

Lemma filter_filter_comm {A} (f g : A -> bool) (l : list A) :
  List.filter f (List.filter g l) = List.filter g (List.filter f l).
Proof.
  induction l as [|x l IH]; trivial. simpl.
  destruct (f x) eqn:Hf, (g x) eqn:Hg; simpl; rewrite ?Hf, ?Hg;
    congruence.
Qed.

Lemma filter_all {A} (f : A -> bool) (l : list A) :
  (forall x, In x l -> f x = true) -> List.filter f l = l.
Proof.
  induction l as [|x l IH]; trivial. intros H. simpl.
  rewrite (H x) by now left. f_equal. apply IH.
  intros y Hy. apply H. now right.
Qed.

Lemma body_intents_own b i d fr :
  intents (events_of i (emitted (body b i d fr))) =
  intents (emitted (body b i d fr)).
Proof.
  unfold intents, events_of. rewrite filter_filter_comm.
  apply filter_all. intros ev Hin.
  apply List.filter_In in Hin. destruct Hin as [Hin Hi].
  destruct (body_events classify params _ _ _ _ _ Hin) as [H|H].
  - unfold about. rewrite H. apply Nat.eqb_refl.
  - destruct ev; simpl in *; congruence.
Qed.

(** X4. On one bar a feed gets one order intent at most: never a close and
    a buy together, never the same order twice. *)
Theorem one_intent_per_feed_per_bar (ag : agent) (b : bar) (i : nat) :
  (length (intents (events_of i (emitted (next ag b)))) <= 1)%nat.
Proof.
  rewrite next_emitted.
  destruct (datas ag !! i) as [d|] eqn:Hd.
  - destruct (loop_at classify params b 0 _
                (Frame None (model_signals ag)) _ _ Hd) as [H|(fr' & H)];
      cbn [Nat.add] in H; rewrite H; [simpl; lia|].
    rewrite body_intents_own. apply body_one_intent.
  - rewrite events_of_none; [simpl; lia|].
    intros ev Hin Hi.
    destruct (loop_events classify params _ _ _ _ _ Hin)
      as [H|(k & H & Hk)]; [congruence|].
    rewrite Hi in H. injection H as ->.
    apply lookup_ge_None_1 in Hd. simpl in Hk. lia.
Qed.

(** *** The signal table (line 58) *)

Lemma signals_step ag b k d fr :
  datas ag !! k = Some d ->
  signals_upto ag b k fr ->
  raised (body b k d fr) = None ->
  signals_upto ag b (S k) (snd (final (body b k d fr))).
Proof.
  intros Hd [Hkeep Hdone] Hr.
  destruct (body_cases b k d fr)
    as [[Hs E]|[(Hl & Hf & E)
               |[(Hl & text & e & Ht & Hc & E)
                |(Hl & text & pred & conf & o & Ht & Hc & _ & E)]]];
    rewrite E in Hr |- *; cbn [raised] in Hr; try discriminate;
    cbn [final snd]; split; cbn [signals].
  - intros j Hj. apply Hkeep. lia.
  - intros j d' Hj Hd'. destruct (Nat.eq_dec j k) as [->|Hne].
    + rewrite Hd in Hd'. injection Hd' as <-. split; [|intros; lia].
      intros _. apply Hkeep. lia.
    + apply Hdone; [lia|trivial].
  - intros j Hj. rewrite lookup_insert_ne by lia. apply Hkeep. lia.
  - intros j d' Hj Hd'. destruct (Nat.eq_dec j k) as [->|Hne].
    + rewrite Hd in Hd'. injection Hd' as <-. split; [intros; lia|].
      intros text' Ht' _. rewrite Ht in Ht'. injection Ht' as <-.
      exists pred, conf. split; [trivial|]. apply lookup_insert_eq.
    + rewrite lookup_insert_ne by lia. apply Hdone; [lia|trivial].
Qed.

(** X5. After a bar that [next] completes, [model_signals] holds, for
    every feed whose buffer has reached [seq_length], the class predicted
    on this bar; the entry of a feed still warming up is the one it had,
    as is any entry that belongs to no feed. *)
Theorem signals_hold_last_prediction (ag : agent) (b : bar) :
  raised (next ag b) = None ->
  (forall i d,
     datas ag !! i = Some d ->
     (Z.of_nat (length (lookback d)) + 1 < seq_length params ->
      model_signals (final (next ag b)) !! i = model_signals ag !! i) /\
     (forall text,
        feature_text (lookback d ++ [close0 b i]) = Ok text ->
        seq_length params <= Z.of_nat (length (lookback d)) + 1 ->
        exists pred conf,
          classify text = Ok (pred, conf) /\
          model_signals (final (next ag b)) !! i = Some pred)) /\
  (forall i,
     (length (datas ag) <= i)%nat ->
     model_signals (final (next ag b)) !! i = model_signals ag !! i).
Proof.
  intros Hr.
  destruct (loop_invariant b (signals_upto ag b) (fun _ => True)
              (fun _ => True) (datas ag) 0
              (Frame None (model_signals ag))) as (_ & _ & HP).
  - intros k d fr' Hk HP. cbn [Nat.add] in *.
    split; [now apply signals_step|]. split; trivial.
  - split; [reflexivity|]. intros j d Hj. lia.
  - specialize (HP Hr). cbn [Nat.add] in HP. destruct HP as [Hkeep Hdone].
    split.
    + intros i d Hd. apply Hdone; trivial.
      apply lookup_lt_is_Some_1; eauto.
    + intros i Hi. apply Hkeep, Hi.
Qed.

(** *** The buffers over a run (line 35) *)

Lemma run_cons ag b bars :
  run ag (b :: bars) =
  match raised (next ag b) with
  | Some e => (final (next ag b), [emitted (next ag b)], Some e)
  | None =>
      let '(ag', tr, r) := run (final (next ag b)) bars in
      (ag', emitted (next ag b) :: tr, r)
  end.
Proof. reflexivity. Qed.

Lemma buffers_append_only_aux (bars : list bar) (ag : agent) :
  snd (run ag bars) = None ->
  length (datas (fst (fst (run ag bars)))) = length (datas ag) /\
  forall i d,
    datas ag !! i = Some d ->
    datas (fst (fst (run ag bars))) !! i =
    Some (Data (_name d)
               (lookback d ++ List.map (fun b => close0 b i) bars)).
Proof.
  revert ag. induction bars as [|b bars IH]; intros ag.
  - simpl. intros _. split; trivial. intros i [n lb] Hd.
    now rewrite app_nil_r.
  - rewrite run_cons.
    destruct (raised (next ag b)) eqn:Hr; [discriminate|].
    specialize (IH (final (next ag b))).
    destruct (run (final (next ag b)) bars) as [[ag' tr] r].
    cbn [fst snd] in *. intros ->. destruct IH as [Hlen Hall]; trivial.
    split; [now rewrite Hlen, next_datas_length|].
    intros i d Hd.
    rewrite (Hall i _ (next_datas classify params _ _ _ _ Hr Hd)).
    cbn [appended _name lookback List.map].
    now rewrite <- app_assoc.
Qed.

(** X6. The buffers only grow. After a run that ends without an
    exception every feed keeps its name and its buffer is the one it had,
    followed by its closes of the bars, all of them, in order: nothing is
    dropped or truncated, and no feed is added or removed. *)
Theorem buffers_append_only (bars : list bar) (ag : agent) :
  snd (run ag bars) = None ->
  length (datas (fst (fst (run ag bars)))) = length (datas ag) /\
  forall i d,
    datas ag !! i = Some d ->
    datas (fst (fst (run ag bars))) !! i =
    Some (Data (_name d)
               (lookback d ++ List.map (fun b => close0 b i) bars)).
Proof. apply buffers_append_only_aux. Qed.

(** *** A zero close *)

(** X7. A zero close that serves as a divisor in the window (any close of
    the window but the last) makes the iteration raise
    [ZeroDivisionError]: the model is not consulted, nothing is ordered,
    the signal table is untouched; the close of the bar has been appended
    all the same. *)
Theorem zero_close_raises (b : bar) (i : nat) (d : data) (fr : frame)
    (k : nat) (p : float) :
  seq_length params <= Z.of_nat (length (lookback d)) + 1 ->
  recent_closes params (lookback d ++ [close0 b i]) !! k = Some p ->
  (S k < length (recent_closes params (lookback d ++ [close0 b i])))%nat ->
  (p =? 0)%float = true ->
  body b i d fr =
  Out (appended b i d, fr) [] (Some float_division_by_zero).
Proof.
  intros Hl Hp Hk Hz.
  assert (Hnot : forall text,
            feature_text (lookback d ++ [close0 b i]) <> Ok text);
    [|destruct (body_cases b i d fr)
        as [[Hs _]|[(_ & _ & H)
                   |[(_ & text & e & Ht & _)
                    |(_ & text & pred & conf & o & Ht & _)]]];
      [lia|exact H|now destruct (Hnot text)|now destruct (Hnot text)]].
  intros text Ht. unfold Agent.feature_text in Ht.
  set (recent := recent_closes params (lookback d ++ [close0 b i])) in *.
  destruct (returns_of recent) as [rs|] eqn:Hr; [|discriminate].
  pose proof (comprehension_Forall2 _ _ _ Hr) as HF.
  assert (HS : range (length recent) !! S k = Some (S k)).
  { unfold range. now apply lookup_seq_lt. }
  destruct (Forall2_lookup_l _ _ _ _ _ HF HS) as (y & _ & Hy).
  destruct (lookup_lt_is_Some_2 recent (S k)) as [c Hc]; [lia|].
  cbv beta in Hy. unfold simple_return in Hy.
  destruct (Z.ltb_spec 0 (Z.of_nat (S k))); [|lia].
  rewrite (getitem_lookup _ _ _ Hc) in Hy. cbn [bind] in Hy.
  replace (Z.of_nat (S k) - 1) with (Z.of_nat k) in Hy by lia.
  rewrite (getitem_lookup _ _ _ Hp) in Hy. cbn [bind] in Hy.
  unfold float_truediv in Hy. rewrite Hz in Hy. discriminate.
Qed.

(** *** A window length of zero or less *)

Lemma slice_from_nonneg {A} (l : list A) (n : Z) :
  0 <= n -> slice_from l n = drop (Z.to_nat n) l.
Proof.
  intros Hn. unfold slice_from.
  destruct (Z.ltb_spec n 0); [lia|].
  destruct (Z.le_gt_cases n (Z.of_nat (length l))).
  - now rewrite Z.min_l.
  - rewrite Z.min_r by lia. rewrite Nat2Z.id.
    rewrite !drop_ge; trivial; lia.
Qed.

(** X8. With [seq_length <= 0] no bar is skipped: from its first bar on
    every feed goes to the model (or raises on a zero close). The window
    is not the last [seq_length] closes but the buffer without its first
    [-seq_length] ones: with [seq_length = 0] the whole buffer, which
    grows with every bar. *)
Theorem nonpositive_seq_length (b : bar) (i : nat) (d : data) (fr : frame) :
  seq_length params <= 0 ->
  recent_closes params (lookback d ++ [close0 b i]) =
    drop (Z.to_nat (- seq_length params)) (lookback d ++ [close0 b i]) /\
  ((exists text, In (Infer i text) (emitted (body b i d fr))) \/
   raised (body b i d fr) = Some float_division_by_zero).
Proof.
  intros Hn. split.
  - unfold recent_closes. apply slice_from_nonneg. lia.
  - destruct (body_cases b i d fr)
      as [[Hs _]|[(_ & _ & ->)
                 |[(_ & text & e & _ & _ & ->)
                  |(_ & text & pred & conf & o & _ & _ & _ & ->)]]];
      [lia|now right| |]; left; exists text; now left.
Qed.

(** *** The bars before the window is full *)

Lemma map_fmap {A B} (f : A -> B) (l : list A) : List.map f l = f <$> l.
Proof.
  induction l as [|x l IH]; [reflexivity|].
  cbn [List.map]. rewrite fmap_cons. now rewrite IH.
Qed.

Lemma loop_warming b ds :
  forall i fr,
    (forall d, In d ds ->
       Z.of_nat (length (lookback d)) + 1 < seq_length params) ->
    loop b i ds fr =
    Out (imap (fun k => appended b (i + k)) ds, fr) [] None.
Proof.
  induction ds as [|d ds IH]; intros i fr H; trivial.
  cbn [Agent.loop]. rewrite body_short by (apply H; now left).
  cbn [raised final emitted fst snd]. rewrite IH
    by (intros d' Hd'; apply H; now right).
  cbn [final emitted raised fst snd imap app]. rewrite Nat.add_0_r.
  do 2 f_equal. f_equal. apply imap_ext. intros k x _. simpl.
  now rewrite Nat.add_succ_r.
Qed.

Lemma run_warming bars :
  forall ag,
    (forall d, In d (datas ag) ->
       Z.of_nat (length (lookback d)) + Z.of_nat (length bars)
       < seq_length params) ->
    snd (run ag bars) = None /\
    snd (fst (run ag bars)) = replicate (length bars) [] /\
    model_signals (fst (fst (run ag bars))) = model_signals ag.
Proof.
  induction bars as [|b bars IH]; intros ag H; [now simpl|].
  assert (Hn : next ag b =
               Out {| datas := imap (fun k => appended b (0 + k)) (datas ag);
                      model_signals := model_signals ag |} [] None).
  { unfold Agent.next. rewrite loop_warming; trivial.
    intros d Hd. specialize (H d Hd). simpl in H. lia. }
  rewrite run_cons, Hn. cbn [raised final emitted].
  destruct (IH {| datas := imap (fun k => appended b (0 + k)) (datas ag);
                  model_signals := model_signals ag |})
    as (Hr & Ht & Hs).
  - cbn [datas]. intros d' Hd'.
    apply list_elem_of_In, list_elem_of_lookup in Hd'.
    destruct Hd' as [k Hk]. rewrite list_lookup_imap in Hk.
    destruct (datas ag !! k) as [d|] eqn:Hd; [|discriminate].
    injection Hk as <-. cbn [appended lookback].
    rewrite length_app. cbn [length].
    assert (Hin : In d (datas ag)).
    { apply list_elem_of_In, list_elem_of_lookup. eauto. }
    specialize (H d Hin). simpl in H. lia.
  - destruct (run _ bars) as [[ag' tr] r]. cbn [fst snd] in *.
    subst. now simpl.
Qed.

(** X9. A run that starts from [__init__] and is shorter than
    [seq_length] bars does nothing but fill the buffers: no exception, no
    event on any bar (no inference, no order, no print), every signal
    still 0, and each buffer holding the closes of its feed. *)
Theorem warm_up_is_silent (names : list string) (bars : list bar) :
  Z.of_nat (length bars) < seq_length params ->
  snd (run (init names) bars) = None /\
  trace (init names) bars = replicate (length bars) [] /\
  model_signals (fst (fst (run (init names) bars)))
    = model_signals (init names) /\
  (forall i name,
     names !! i = Some name ->
     model_signals (init names) !! i = Some 0 /\
     datas (fst (fst (run (init names) bars))) !! i =
     Some (Data name (List.map (fun b => close0 b i) bars))).
Proof.
  intros Hn.
  destruct (run_warming bars (init names)) as (Hr & Ht & Hs).
  { intros d Hd. unfold init in Hd. cbn [datas] in Hd.
    apply in_map_iff in Hd. destruct Hd as (n & <- & _). simpl. lia. }
  repeat split; trivial.
  - unfold init. cbn [model_signals]. rewrite map_fmap.
    apply elem_of_list_to_map_1.
    + rewrite <- list_fmap_compose.
      rewrite (list_fmap_ext _ id (range (length names)))
        by (intros; reflexivity).
      rewrite list_fmap_id. apply NoDup_seq.
    + apply list_elem_of_fmap. exists i. split; trivial.
      apply list_elem_of_In, in_seq. apply lookup_lt_Some in H. lia.
  - destruct (buffers_append_only_aux bars (init names) Hr) as [_ Hall].
    apply (Hall i (Data name [])).
    unfold init. cbn [datas].
    now rewrite map_fmap, list_lookup_fmap, H.
Qed.

End Policy.

(** *** The statements at sample inputs *)

Local Open Scope string_scope.

Lemma close_only_when_flat_witness :
  let b := quote 10000 100 0 in
  let d0 := Data "SPY" (replicate 9 100%float) in
  getposition b 0 = 0 /\
  (exists d text conf,
     [d0] !! 0%nat = Some d /\
     seq_length default_params <= Z.of_nat (length (lookback d)) + 1 /\
     feature_text default_params (lookback d ++ [close0 b 0]) = Ok text /\
     always 2 0.9 text = Ok (2, conf) /\
     (threshold default_params <? conf)%float = true) /\
  exists s, share_count default_params b 0 = Ok s /\ 0 < s.
Proof.
  apply (close_only_when_flat (always 2 0.9) default_params
           (warmed "SPY" (replicate 9 100%float)) (quote 10000 100 0) 0).
  vm_compute. auto.
Defined.

Lemma buy_sized_by_earlier_feed_witness :
  getposition pair_bar 1 <> 0 /\
  (exists d text conf,
     datas pair !! 1%nat = Some d /\
     seq_length short_window <= Z.of_nat (length (lookback d)) + 1 /\
     feature_text short_window (lookback d ++ [close0 pair_bar 1])
       = Ok text /\
     up_when_flat text = Ok (0, conf) /\
     (threshold short_window <? conf)%float = true) /\
  exists j, (j < 1)%nat /\ getposition pair_bar j = 0 /\
            share_count short_window pair_bar j = Ok 15.
Proof.
  apply (buy_sized_by_earlier_feed up_when_flat short_window pair pair_bar).
  vm_compute. auto 10.
Defined.

Lemma signals_hold_last_prediction_witness :
  exists pred conf,
    always 2 0.9 flat_text = Ok (pred, conf) /\
    model_signals
      (final (next (always 2 0.9) default_params
                (warmed "SPY" (replicate 9 100%float)) (quote 10000 100 0)))
      !! 0%nat = Some pred.
Proof.
  destruct (signals_hold_last_prediction (always 2 0.9) default_params
              (warmed "SPY" (replicate 9 100%float)) (quote 10000 100 0)
              eq_refl) as [H _].
  destruct (H 0%nat (Data "SPY" (replicate 9 100%float)) eq_refl)
    as [_ H2].
  apply (H2 flat_text); [reflexivity|]. vm_compute. discriminate.
Defined.

Lemma buffers_append_only_witness :
  let bars := [quote 10000 100 0; quote 10000 101 0; quote 10000 102 0] in
  let ag := fst (fst (run (always 2 0.5) default_params (init ["SPY"])
                        bars)) in
  length (datas ag) = 1%nat /\
  forall i d,
    datas (init ["SPY"]) !! i = Some d ->
    datas ag !! i =
    Some (Data (_name d)
               (lookback d ++ List.map (fun b => close0 b i) bars)).
Proof.
  apply (buffers_append_only (always 2 0.5) default_params
           [quote 10000 100 0; quote 10000 101 0; quote 10000 102 0]
           (init ["SPY"])).
  reflexivity.
Defined.

Lemma zero_close_raises_witness :
  body (always 2 0.9) short_window (quote 10000 102 0) 0
       (Data "SPY" [100; 0]%float) (Frame None ∅) =
  Out (Data "SPY" [100; 0; 102]%float, Frame None ∅) []
      (Some float_division_by_zero).
Proof.
  apply (zero_close_raises (always 2 0.9) short_window
           (quote 10000 102 0) 0 (Data "SPY" [100; 0]%float)
           (Frame None ∅) 1 0%float).
  - vm_compute. discriminate.
  - reflexivity.
  - vm_compute. lia.
  - reflexivity.
Defined.

Lemma nonpositive_seq_length_witness :
  let b := quote 10000 100 0 in
  let d := Data "SPY" [98; 99]%float in
  recent_closes no_window (lookback d ++ [close0 b 0]) =
    drop (Z.to_nat (- seq_length no_window)) (lookback d ++ [close0 b 0]) /\
  ((exists text,
      In (Infer 0 text)
         (emitted (body (always 1 0.9) no_window b 0 d (Frame None ∅)))) \/
   raised (body (always 1 0.9) no_window b 0 d (Frame None ∅))
     = Some float_division_by_zero).
Proof.
  apply (nonpositive_seq_length (always 1 0.9) no_window).
  vm_compute. discriminate.
Defined.

Lemma warm_up_is_silent_witness :
  let names := ["SPY"; "QQQ"] in
  let bars := replicate 9 (quote 10000 100 0) in
  let r := run (always 2 0.9) default_params (init names) bars in
  snd r = None /\
  trace (always 2 0.9) default_params (init names) bars
    = replicate (length bars) [] /\
  model_signals (fst (fst r)) = model_signals (init names) /\
  (forall i name,
     names !! i = Some name ->
     model_signals (init names) !! i = Some 0 /\
     datas (fst (fst r)) !! i =
     Some (Data name (List.map (fun b => close0 b i) bars))).
Proof.
  apply (warm_up_is_silent (always 2 0.9) default_params
           ["SPY"; "QQQ"] (replicate 9 (quote 10000 100 0))).
  reflexivity.
Defined.

(** A model that cannot be reached ends the first bar on which a buffer
    is full. *)
Lemma next_failures_witness :
  let ag := warmed "SPY" (replicate 9 100%float) in
  let b := quote 10000 100 5 in
  let e := Exn (OtherException "RuntimeError") "device unavailable" in
  (exists i d text,
     datas ag !! i = Some d /\
     seq_length default_params <= Z.of_nat (length (lookback d)) + 1 /\
     feature_text default_params (lookback d ++ [close0 b i]) = Ok text /\
     unavailable text = Raise e) \/
  e = float_division_by_zero \/ e = nan_to_integer \/
  e = infinity_to_integer \/
  (e = unbound_local "size" /\
   exists i, (i < length (datas ag))%nat /\ getposition b i <> 0).
Proof.
  apply (next_failures unavailable default_params
           (warmed "SPY" (replicate 9 100%float)) (quote 10000 100 5)).
  reflexivity.
Defined.

End AgentMore.

(* ===================================================================== *)
(** ** More on the reducer and the script *)
(* ===================================================================== *)

Module RunnerMore.
Import Py Runner Script Scenario RunnerSpec.
Local Open Scope string_scope.
Local Open Scope Z_scope.
Local Open Scope py_scope.

(** *** Floats *)

Lemma abs_not_negative (x : float) : (PrimFloat.abs x <? 0)%float = false.
Proof.
  rewrite FloatAxioms.ltb_spec, FloatAxioms.abs_spec.
  change (Prim2SF 0) with (S754_zero false).
  destruct (Prim2SF x) as [s|s| |s m e]; reflexivity.
Qed.

Section Lookup.

Variable attr : value -> string -> option value.

Local Abbreviation entry := (entry attr).
Local Abbreviation descend := (descend attr).
Local Abbreviation safe_get := (safe_get attr).
Local Abbreviation present := (present attr).
Local Abbreviation win_rate_pct := (win_rate_pct attr).
Local Abbreviation profit_factor := (profit_factor attr).
Local Abbreviation consolidate := (consolidate attr).

(** *** [safe_get] and its default *)

(** What [safe_get] returns is the default itself, or a value found at the
    end of the path: then neither [None] nor NaN, and the same whatever
    the default. *)
Lemma safe_get_result a keys d :
  exists v,
    safe_get a keys d = Ok v /\
    (v = d \/
     (v <> VNone /\ is_nan_float v = false /\
      forall d', safe_get a keys d' = Ok v)).
Proof.
  rewrite safe_get_unfold.
  destruct (is_None a) eqn:Ha; [eauto|].
  pose proof Ha as Ha'. apply is_None_false in Ha'.
  pose proof (descend_cases attr a (key_list keys) Ha') as Hd.
  destruct (descend a (key_list keys)) as [v|] eqn:Hv; [|eauto].
  destruct Hd as (_ & Hn & _).
  destruct (is_nan_float v) eqn:Hnan; [eauto|].
  exists v. split; trivial. right. repeat split; trivial.
  intros d'. now rewrite safe_get_unfold, Ha, Hv, Hnan.
Qed.

Lemma safe_get_total a keys d : exists v, safe_get a keys d = Ok v.
Proof. destruct (safe_get_result a keys d) as (v & H & _). eauto. Qed.

Lemma safe_get_nonnull a keys d :
  d <> VNone -> is_nan_float d = false ->
  exists v, safe_get a keys d = Ok v /\ v <> VNone /\
            is_nan_float v = false.
Proof.
  intros Hd Hn. destruct (safe_get_result a keys d)
    as (v & H & [->|(H1 & H2 & _)]); eauto.
Qed.

(** X10. [safe_get] returns either the default it was given, or a value
    found at the end of the path; a found value is never [None], never a
    NaN float, and is the same for every default. In particular a default
    that is neither [None] nor NaN guarantees such a result. *)
Theorem safe_get_default_or_found (a : value) (keys : keyspec) (d : value) :
  exists v,
    safe_get a keys d = Ok v /\
    (v = d \/
     (v <> VNone /\ is_nan_float v = false /\
      forall d', safe_get a keys d' = Ok v)) /\
    (d <> VNone -> is_nan_float d = false ->
     v <> VNone /\ is_nan_float v = false).
Proof.
  destruct (safe_get_result a keys d) as (v & H & Hv).
  exists v. split; [trivial|]. split; [trivial|].
  intros Hd Hn. destruct Hv as [->|(Hv1 & Hv2 & _)]; auto.
Qed.

(** *** Paths compose *)

Lemma descend_app a ks1 ks2 v :
  present a ks1 v -> descend a (ks1 ++ ks2)%list = descend v ks2.
Proof.
  induction 1 as [v Hv | v k v' ks r Hv He Hp IH]; trivial.
  cbn [app]. rewrite descend_cons, He.
  assert (Hv' : v' <> VNone) by (inversion Hp; trivial).
  apply is_None_false in Hv'. now rewrite Hv'.
Qed.

Lemma present_end a ks v : present a ks v -> v <> VNone.
Proof. induction 1; trivial. Qed.

(** X11. Looking up a path in two steps is looking it up at once: when a
    first path leads through present values to [v], the lookup of the
    path continued by a second one is the lookup of the second path in
    [v]. *)
Theorem safe_get_composes (a v : value) (ks1 ks2 : list string)
    (d : value) :
  present a ks1 v ->
  safe_get a (Keys (ks1 ++ ks2)%list) d = safe_get v (Keys ks2) d.
Proof.
  intros Hp. rewrite !safe_get_unfold. cbn [key_list].
  pose proof (present_not_None attr _ _ _ Hp) as Ha.
  pose proof (present_end _ _ _ Hp) as Hv.
  apply is_None_false in Ha, Hv. rewrite Ha, Hv.
  now rewrite (descend_app _ _ _ _ Hp).
Qed.

(** *** The guarded ratios *)

Lemma portfolio_return_pct_ok (initial final : float) :
  exists v,
    portfolio_return_pct initial final = Ok v /\
    ((initial =? 0)%float = true -> v = VInt 0) /\
    ((initial =? 0)%float = false ->
     v = VFloat ((final - initial) / initial * 100)%float).
Proof.
  unfold portfolio_return_pct, float_truediv.
  destruct (initial =? 0)%float; simpl; eexists;
    (split; [reflexivity|]); split; intros H; congruence.
Qed.

(** X12. [portfolio_return_pct] never raises, whatever the two values
    (zeros of either sign, infinities and NaN included): a zero initial
    value gives the integer 0, any other the float
    [(final - initial) / initial * 100]. *)
Theorem portfolio_return_pct_guarded (initial final : float) :
  exists v,
    portfolio_return_pct initial final = Ok v /\
    ((initial =? 0)%float = true -> v = VInt 0) /\
    ((initial =? 0)%float = false ->
     v = VFloat ((final - initial) / initial * 100)%float).
Proof. apply portfolio_return_pct_ok. Qed.

(** X13. With an integer count [c] of closed trades present and an
    integer count [w] of won trades (0 when that entry is absent), the
    win rate is the integer 0 for [c <= 0], and nothing is divided. For
    [0 < c] it is the exact quotient [w / c], rounded once to a float,
    times 100: the guard has excluded the division by zero, and the one
    exception left is the [OverflowError] of a quotient beyond the floats.
    With the wins among the closed trades ([|w| <= c]) nothing is raised. *)
Theorem win_rate_of_counts (ta : value) (c w : Z) :
  present ta ["total"; "closed"] (VInt c) ->
  safe_get ta (Keys ["won"; "total"]) (VInt 0) = Ok (VInt w) ->
  (c <= 0 -> win_rate_pct ta = Ok (VInt 0)) /\
  (0 < c ->
   win_rate_pct ta = (q <- int_truediv w c ;; Ok (VFloat (q * 100)%float)) /\
   (forall e, win_rate_pct ta = Raise e -> e = division_result_too_large) /\
   (Z.abs w <= c ->
    exists q, int_truediv w c = Ok q /\
              win_rate_pct ta = Ok (VFloat (q * 100)%float))).
Proof.
  intros Hc Hw.
  assert (Hget : forall d,
            safe_get ta (Keys ["total"; "closed"]) d = Ok (VInt c)).
  { intros d. rewrite safe_get_unfold. cbn [key_list].
    pose proof (present_not_None attr _ _ _ Hc) as Ha.
    apply is_None_false in Ha.
    now rewrite Ha, (present_descend attr _ _ _ Hc). }
  unfold Runner.win_rate_pct. rewrite !Hget, Hw.
  cbn [bind gt_zero as_number truediv]. split; intros H.
  - destruct (Z.ltb_spec 0 c); [lia|reflexivity].
  - destruct (Z.ltb_spec 0 c); [|lia].
    split; [reflexivity|]. split.
    + intros e He. destruct (int_truediv w c) as [q|e'] eqn:E;
        [discriminate|]. cbn [bind] in He. injection He as <-.
      destruct (PySpec.int_truediv_raise _ _ _ E) as [[? _]|[_ ?]];
        [lia|trivial].
    + intros Hwc.
      destruct (PySpec.int_truediv_small w c) as [q Hq]; [lia|lia|].
      exists q. now rewrite Hq.
Qed.

(** What a division can raise: [TypeError] on an operand that is no
    number, [ZeroDivisionError] on a zero divisor, [OverflowError] on an
    integer, or a quotient of integers, beyond the floats. *)
Lemma truediv_raise (a b : value) (e : exn) :
  truediv a b = Raise e ->
  exn_cls e = ZeroDivisionError \/ exn_cls e = TypeError \/
  exn_cls e = OverflowError.
Proof.
  unfold truediv.
  destruct (as_number a) as [[x|x]|], (as_number b) as [[y|y]|];
    cbn [to_float bind]; try (intros [= <-]; auto).
  - intros H. destruct (PySpec.int_truediv_raise _ _ _ H)
      as [[_ ->]|[_ ->]]; auto.
  - destruct (float_of_int x) as [x'|e'] eqn:E; cbn [bind].
    + unfold float_truediv. destruct (PrimFloat.eqb _ _);
        intros [= <-]; auto.
    + intros [= <-]. rewrite (PySpec.float_of_int_raise _ _ E). auto.
  - destruct (float_of_int y) as [y'|e'] eqn:E; cbn [bind].
    + unfold float_truediv. destruct (PrimFloat.eqb _ _);
        intros [= <-]; auto.
    + intros [= <-]. rewrite (PySpec.float_of_int_raise _ _ E). auto.
  - unfold float_truediv. destruct (PrimFloat.eqb _ _);
      intros [= <-]; auto.
Qed.

(** X14. [profit_factor] ends in one of three ways: [None]; a float that
    is not negative; or an exception of the division: [ZeroDivisionError],
    [TypeError], or the [OverflowError] of an integer, or a quotient of
    integers, beyond the floats. *)
Theorem profit_factor_outcomes (ta : value) :
  match profit_factor ta with
  | Ok VNone => True
  | Ok (VFloat x) => (x <? 0)%float = false
  | Ok _ => False
  | Raise e =>
      exn_cls e = ZeroDivisionError \/ exn_cls e = TypeError \/
      exn_cls e = OverflowError
  end.
Proof.
  unfold Runner.profit_factor.
  destruct (safe_get_total ta (Keys ["lost"; "pnl5"; "total"]) VNone)
    as [g ->]. cbn [bind].
  destruct (ne_zero g); [|exact I].
  destruct (safe_get_total ta (Keys ["won"; "pnl"; "total"]) (VInt 0))
    as [won ->]. cbn [bind].
  destruct (safe_get_total ta (Keys ["lost"; "pnl"; "total"]) (VInt 1))
    as [lost ->]. cbn [bind].
  destruct (truediv won lost) as [q|e] eqn:E; cbn [bind].
  - apply abs_not_negative.
  - exact (truediv_raise _ _ _ E).
Qed.

(** *** The result record *)

Lemma portfolio_return_pct_total initial final :
  exists v, portfolio_return_pct initial final = Ok v.
Proof.
  destruct (portfolio_return_pct_ok initial final) as (v & H & _). eauto.
Qed.

(** The entries of the record other than the two guarded ratios cannot
    raise; an entry with the default 0 is never [None] nor NaN. *)
Ltac settle_lookups :=
  repeat match goal with
    | |- context [Runner.safe_get attr ?a ?k (VInt ?n)] =>
        let v := fresh "v" in
        let H1 := fresh "Hnone" in
        let H2 := fresh "Hnan" in
        destruct (safe_get_nonnull a k (VInt n)) as (v & -> & H1 & H2);
        [discriminate|reflexivity|]; cbn [bind]
    | |- context [Runner.safe_get attr ?a ?k VNone] =>
        let v := fresh "v" in
        destruct (safe_get_total a k VNone) as [v ->]; cbn [bind]
    end.

Lemma consolidate_cases (a : analyses) :
  match win_rate_pct (trade_analysis a) with
  | Raise e => consolidate a = Raise e
  | Ok w =>
      match profit_factor (trade_analysis a) with
      | Raise e => consolidate a = Raise e
      | Ok f =>
          exists res,
            consolidate a = Ok res /\
            List.map fst res =
              ["initial_value"; "final_value"; "portfolio_return_pct";
               "portfolio_net_pnl"; "annualized_return_pct";
               "sharpe_ratio"; "calmar_ratio"; "sqn"; "max_drawdown_pct";
               "max_drawdown_money"; "max_drawdown_duration_bars";
               "total_trades"; "trades_open"; "trades_closed";
               "win_trades"; "loss_trades"; "win_rate_pct";
               "total_net_pnl"; "average_win_pnl"; "average_loss_pnl";
               "profit_factor"; "max_consecutive_wins";
               "max_consecutive_losses"; "average_trade_duration_bars";
               "annual_returns"] /\
            (forall k,
               In k ["total_trades"; "trades_open"; "trades_closed";
                     "win_trades"; "loss_trades"; "total_net_pnl";
                     "average_win_pnl"; "average_loss_pnl";
                     "max_consecutive_wins"; "max_consecutive_losses"] ->
               exists v, dict_lookup res k = Some v /\ v <> VNone /\
                         is_nan_float v = false) /\
            dict_lookup res "initial_value"
              = Some (VFloat (initial_value a)) /\
            dict_lookup res "final_value" = Some (VFloat (final_value a)) /\
            dict_lookup res "portfolio_net_pnl"
              = Some (VFloat (final_value a - initial_value a)) /\
            dict_lookup res "win_rate_pct" = Some w /\
            dict_lookup res "profit_factor" = Some f /\
            dict_lookup res "annual_returns"
              = Some (annual_return_analysis a)
      end
  end.
Proof.
  unfold Runner.consolidate.
  destruct (portfolio_return_pct_total (initial_value a) (final_value a))
    as [rp ->]. cbn [bind].
  settle_lookups.
  destruct (win_rate_pct (trade_analysis a)) as [w|e]; [|reflexivity].
  cbn [bind]. settle_lookups.
  destruct (profit_factor (trade_analysis a)) as [f|e]; [|reflexivity].
  cbn [bind]. settle_lookups.
  eexists. split; [reflexivity|]. split; [reflexivity|].
  split; [|repeat split; reflexivity].
  intros k Hk. cbn [In] in Hk.
  repeat (destruct Hk as [<-|Hk];
          [eexists; split; [reflexivity|]; split; assumption|]).
  destruct Hk.
Qed.

(** X15. The result record is all or nothing, and only the two guarded
    ratios can make it nothing: the reduction raises exactly when
    [win_rate_pct] raises, or [win_rate_pct] returns and [profit_factor]
    raises, and then with that exception. *)
Theorem consolidate_raises_iff (a : analyses) (e : exn) :
  consolidate a = Raise e <->
  win_rate_pct (trade_analysis a) = Raise e \/
  exists w, win_rate_pct (trade_analysis a) = Ok w /\
            profit_factor (trade_analysis a) = Raise e.
Proof.
  pose proof (consolidate_cases a) as H.
  destruct (win_rate_pct (trade_analysis a)) as [w|e1].
  - destruct (profit_factor (trade_analysis a)) as [f|e2].
    + destruct H as (res & -> & _). split; [discriminate|].
      intros [H|(w' & _ & H)]; discriminate.
    + rewrite H. split.
      * intros [= ->]. right. eauto.
      * intros [H'|(w' & _ & H')]; congruence.
  - rewrite H. split.
    + intros [= ->]. now left.
    + intros [H'|(w' & H' & _)]; congruence.
Qed.

(** X16. A record that the reduction returns has its twenty-five fields
    in the order of the source; the ten fields declared with the default 0
    are never [None] nor NaN; the portfolio values and the annual returns
    pass through unchanged. *)
Theorem consolidate_schema (a : analyses) (res : list (string * value)) :
  consolidate a = Ok res ->
  List.map fst res =
    ["initial_value"; "final_value"; "portfolio_return_pct";
     "portfolio_net_pnl"; "annualized_return_pct";
     "sharpe_ratio"; "calmar_ratio"; "sqn"; "max_drawdown_pct";
     "max_drawdown_money"; "max_drawdown_duration_bars";
     "total_trades"; "trades_open"; "trades_closed";
     "win_trades"; "loss_trades"; "win_rate_pct";
     "total_net_pnl"; "average_win_pnl"; "average_loss_pnl";
     "profit_factor"; "max_consecutive_wins";
     "max_consecutive_losses"; "average_trade_duration_bars";
     "annual_returns"] /\
  (forall k,
     In k ["total_trades"; "trades_open"; "trades_closed";
           "win_trades"; "loss_trades"; "total_net_pnl";
           "average_win_pnl"; "average_loss_pnl";
           "max_consecutive_wins"; "max_consecutive_losses"] ->
     exists v, dict_lookup res k = Some v /\ v <> VNone /\
               is_nan_float v = false) /\
  dict_lookup res "initial_value" = Some (VFloat (initial_value a)) /\
  dict_lookup res "final_value" = Some (VFloat (final_value a)) /\
  dict_lookup res "portfolio_net_pnl"
    = Some (VFloat (final_value a - initial_value a)) /\
  dict_lookup res "annual_returns" = Some (annual_return_analysis a).
Proof.
  intros Hres. pose proof (consolidate_cases a) as H.
  destruct (win_rate_pct (trade_analysis a)) as [w|e1]; [|congruence].
  destruct (profit_factor (trade_analysis a)) as [f|e2]; [|congruence].
  destruct H as (res' & E & Hk & Hn & H1 & H2 & H3 & _ & _ & H4).
  rewrite Hres in E. injection E as <-. repeat split; trivial.
Qed.

End Lookup.

(** *** The script *)

Section Script.

Variable attr : value -> string -> option value.
Variable simulate :
  list string -> string -> string -> float -> result analyses.
Variable read_symbols : result (list string).
Variable emit : results_data_t -> result unit.
Variable str_of_results : results_data_t -> string.

Local Abbreviation run_backtest := (run_backtest attr simulate).
Local Abbreviation main := (main attr simulate read_symbols emit).
Local Abbreviation report :=
  (report attr simulate read_symbols emit str_of_results).

(** The arguments the script passes to [run_backtest]. *)
Local Abbreviation the_run syms :=
  (run_backtest syms "2023-01-01" "2024-12-31" 0.01%float).

Lemma run_backtest_outcome syms s e r :
  outcome (run_backtest syms s e r) =
  match simulate syms s e r with
  | Raise x => Raise x
  | Ok a =>
      match consolidate attr a with
      | Raise x => Raise x
      | Ok res =>
          Ok {| parameters :=
                  {| symbols := syms; start_date := s; end_date := e |};
                results := res;
                error := None |}
      end
  end.
Proof.
  unfold Runner.run_backtest, attempt.
  destruct (simulate syms s e r) as [a|x]; cbn [bind]; trivial.
  now destruct (consolidate attr a).
Qed.

(** X17. The exit status is 0 or 1, and it is 0 exactly when
    [symbols.txt] is read, the simulation returns, the reduction of its
    analyses returns and the record (with its parameters, these results
    and no error) is written out. The document the script leaves goes
    with the status. *)
Theorem exit_status_zero_iff :
  (main = 0 \/ main = 1) /\
  snd report = main /\
  (main = 0 <->
   exists syms a res u,
     read_symbols = Ok syms /\
     simulate syms "2023-01-01" "2024-12-31" 0.01%float = Ok a /\
     consolidate attr a = Ok res /\
     emit {| parameters :=
               {| symbols := syms; start_date := "2023-01-01";
                  end_date := "2024-12-31" |};
             results := res;
             error := None |} = Ok u).
Proof.
  unfold Runner.main, Script.report.
  destruct read_symbols as [syms|x] eqn:Hs.
  2: { repeat split; auto; [discriminate|].
       intros (syms & a & res & u & [=] & _). }
  rewrite run_backtest_outcome.
  destruct (simulate syms _ _ _) as [a|x] eqn:Ha; cbn [bind].
  2: { repeat split; auto; [discriminate|].
       intros (syms' & a & res & u & [= <-] & H & _). congruence. }
  destruct (consolidate attr a) as [res|x] eqn:Hres; cbn [bind].
  2: { repeat split; auto; [discriminate|].
       intros (syms' & a' & res & u & [= <-] & H & H' & _).
       rewrite Ha in H. injection H as <-. congruence. }
  destruct (emit _) as [u|x] eqn:He.
  - repeat split; auto. intros _. exists syms, a, res, u. auto.
  - repeat split; auto; [discriminate|].
    intros (syms' & a' & res' & u & [= <-] & H & H' & H'').
    rewrite Ha in H. injection H as <-.
    rewrite Hres in H'. injection H' as <-. congruence.
Qed.

(** X18. A run that closes no trade cannot succeed. When the trade
    analysis has no [total.closed] entry (the analyzer creates it with the
    first closed trade), the script exits with status 1 whatever the
    output step would do; what it prints is the fallback object, whose
    error blames the JSON serialization for the [TypeError] of the
    win-rate guard and whose partial results are the empty dict [{}]: the
    record with the parameters and the error is not part of it. *)
Theorem no_closed_trade_fails_the_script (syms : list string)
    (a : analyses) :
  read_symbols = Ok syms ->
  simulate syms "2023-01-01" "2024-12-31" 0.01%float = Ok a ->
  key_missing attr (trade_analysis a) ["total"; "closed"] \/
  none_traversed attr (trade_analysis a) ["total"; "closed"] ->
  main = 1 /\
  report =
    (Fallback
       "JSON serialization failed: '>' not supported between instances of 'NoneType' and 'int'"
       "{}", 1).
Proof.
  intros Hs Ha Hmiss.
  assert (Hw : win_rate_pct attr (trade_analysis a)
               = Raise (not_supported ">" VNone (VInt 0))).
  { unfold win_rate_pct.
    now rewrite (safe_get_absent attr _ (Keys ["total"; "closed"])
                   VNone Hmiss). }
  pose proof (consolidate_cases attr a) as Hc. rewrite Hw in Hc.
  unfold Runner.main, Script.report.
  rewrite Hs, run_backtest_outcome, Ha, Hc. split; reflexivity.
Qed.

End Script.

(** *** The symbol file *)

Lemma readlines_nil text : readlines text = [] -> text = EmptyString.
Proof.
  destruct text as [|c rest]; trivial. simpl.
  destruct (Ascii.eqb c newline); [discriminate|].
  destruct (readlines rest); discriminate.
Qed.

Lemma remove_newlines_clean line :
  contains newline (remove_newlines line) = false.
Proof.
  induction line as [|c rest IH]; trivial. cbn [remove_newlines].
  destruct (Ascii.eqb c newline) eqn:Hc; trivial. cbn [contains].
  now rewrite IH, orb_false_r, Ascii.eqb_sym.
Qed.

Lemma join_cons_char sep c x xs :
  join sep (String c x :: xs) = String c (join sep (x :: xs)).
Proof. destruct xs; reflexivity. Qed.

Lemma join_cons_empty x xs :
  join nl ("" :: x :: xs) = String newline (join nl (x :: xs)).
Proof. reflexivity. Qed.

(** X19. The symbols are exactly the newline-separated fields of
    [symbols.txt]: no symbol contains a newline, and joining the symbols
    with newlines gives the text back, up to one final newline. Nothing
    else is removed: a blank line is the empty symbol, and spaces stay. *)
Theorem symbols_are_the_lines (text : string) :
  (forall sym, In sym (symbols_of text) ->
     contains newline sym = false) /\
  join nl (symbols_of text) ++
    (if ends_with_newline text then nl else "") = text.
Proof.
  split.
  - intros sym Hin. unfold symbols_of in Hin.
    apply in_map_iff in Hin. destruct Hin as (line & <- & _).
    apply remove_newlines_clean.
  - unfold symbols_of.
    induction text as [|c rest IH]; trivial.
    cbn [readlines]. destruct (Ascii.eqb c newline) eqn:Hc.
    + apply Ascii.eqb_eq in Hc. subst c.
      cbn [List.map remove_newlines]. rewrite Ascii.eqb_refl.
      cbn [remove_newlines].
      destruct rest as [|c' rest'] eqn:Hrest; [reflexivity|].
      rewrite <- Hrest in *.
      assert (Hne : readlines rest <> []).
      { intros H. apply readlines_nil in H. congruence. }
      replace (ends_with_newline (String newline rest))
        with (ends_with_newline rest)
        by (rewrite Hrest; reflexivity).
      destruct (readlines rest) as [|line lines]; [congruence|].
      cbn [List.map] in *. rewrite join_cons_empty.
      apply (f_equal (String newline)) in IH. exact IH.
    + destruct (readlines rest) as [|line lines] eqn:Hr.
      * apply readlines_nil in Hr. subst rest.
        cbn [List.map remove_newlines join ends_with_newline].
        now rewrite Hc.
      * cbn [List.map remove_newlines] in *. rewrite Hc.
        rewrite join_cons_char.
        replace (ends_with_newline (String c rest))
          with (ends_with_newline rest)
          by (destruct rest; [discriminate|reflexivity]).
        apply (f_equal (String c)) in IH. exact IH.
Qed.

Lemma win_rate_of_counts_witness :
  (1 <= 0 -> win_rate_pct no_attr one_win = Ok (VInt 0)) /\
  (0 < 1 ->
   win_rate_pct no_attr one_win =
     (q <- int_truediv 1 1 ;; Ok (VFloat (q * 100)%float)) /\
   (forall e, win_rate_pct no_attr one_win = Raise e ->
              e = division_result_too_large) /\
   (Z.abs 1 <= 1 ->
    exists q, int_truediv 1 1 = Ok q /\
              win_rate_pct no_attr one_win = Ok (VFloat (q * 100)%float))).
Proof.
  apply (win_rate_of_counts no_attr one_win 1 1).
  - eapply present_step; [discriminate|reflexivity|].
    eapply present_step; [discriminate|reflexivity|].
    apply present_here. discriminate.
  - reflexivity.
Defined.

Lemma consolidate_schema_witness :
  exists res,
    consolidate no_attr busy_run = Ok res /\
    dict_lookup res "trades_closed" = Some (VInt 3) /\
    dict_lookup res "annual_returns" = Some (VDict [("2023", VFloat 0.003)]) /\
    length res = 25%nat.
Proof.
  destruct (consolidate no_attr busy_run) as [res|] eqn:E;
    [|discriminate E].
  exists res. split; [reflexivity|].
  destruct (consolidate_schema no_attr busy_run res E)
    as (Hk & _ & _ & _ & _ & Ha).
  split; [|split; [exact Ha|]].
  - vm_compute in E. injection E as <-. reflexivity.
  - rewrite <- (length_map fst), Hk. reflexivity.
Defined.

Lemma no_closed_trade_fails_the_script_witness :
  main no_attr idle_simulation (Ok ["SPY"]) written = 1 /\
  report no_attr idle_simulation (Ok ["SPY"]) written no_text =
    (Fallback
       "JSON serialization failed: '>' not supported between instances of 'NoneType' and 'int'"
       "{}", 1).
Proof.
  apply (no_closed_trade_fails_the_script no_attr idle_simulation
           (Ok ["SPY"]) written no_text ["SPY"] idle_run);
    try reflexivity.
  left. exists ["total"], "closed", [], (VDict [("total", VInt 0)]).
  repeat split; reflexivity.
Defined.

Lemma safe_get_composes_witness :
  safe_get no_attr one_win (Keys (["won"; "pnl"] ++ ["total"])%list) VNone =
  safe_get no_attr
    (VDict [("total", VFloat 50); ("average", VFloat 50)])
    (Keys ["total"]) VNone.
Proof.
  apply (safe_get_composes no_attr one_win).
  eapply present_step; [discriminate|reflexivity|].
  eapply present_step; [discriminate|reflexivity|].
  apply present_here. discriminate.
Defined.

End RunnerMore.
